(** * check_braces.py: a brace and parenthesis balance scanner

    A shallow embedding of the script [check_braces.py] and the properties
    of its line cleaning, its counters, its problem records and its report.

    The script reads a text file, removes quoted spans and line comments
    from every line with two regular expressions, counts braces and
    parentheses over the cleaned text and reports the lines after which a
    counter is negative. *)

From Stdlib Require Import Strings.Byte Ascii String DecimalString.
From Stdlib Require Import List Bool Arith NArith ZArith Lia Sorted.
From Stdlib Require DecimalZ.
Import ListNotations.

(** ** Text

    A Python [str] is a sequence of Unicode code points. *)

Definition char := N.
Definition str := list char.

Definition ord (a : ascii) : char := N_of_ascii a.

(** The code points of a literal of the script. *)
Definition lit (s : string) : str := map ord (list_ascii_of_string s).

Definition LF : char := 10%N.
Definition CR : char := 13%N.
Definition SPACE : char := 32%N.
Definition DQUOTE : char := 34%N.
Definition SQUOTE : char := 39%N.
Definition LPAREN : char := 40%N.
Definition RPAREN : char := 41%N.
Definition SLASH : char := 47%N.
Definition LBRACE : char := 123%N.
Definition RBRACE : char := 125%N.

(** [str.isspace] on one code point: the characters [str.strip()] removes. *)
Definition isspace (c : char) : bool :=
  ((9 <=? c) && (c <=? 13) || (28 <=? c) && (c <=? 32)
   || (c =? 133) || (c =? 160) || (c =? 5760)
   || (8192 <=? c) && (c <=? 8202)
   || (c =? 8232) || (c =? 8233) || (c =? 8239) || (c =? 8287)
   || (c =? 12288))%N.

Fixpoint lstrip (s : str) : str :=
  match s with
  | [] => []
  | c :: s' => if isspace c then lstrip s' else s
  end.

Definition rstrip (s : str) : str := rev (lstrip (rev s)).

(** [s.strip()] *)
Definition strip (s : str) : str := rstrip (lstrip s).

(** [f"{n}"] for an [int]. *)
Definition str_of_Z (n : Z) : str := lit (NilEmpty.string_of_int (Z.to_int n)).

(** ** The fragment of [re] the script uses

    Both patterns of the script are a one-character atom followed by
    one-character atoms, starred atoms and the end anchor.  The matcher is
    the backtracking one of [re]: a lazy star tries the rest of the pattern
    before it takes one more character, a greedy star after. *)

Module Re.

Inductive atom :=
| Lit (c : char)            (* a literal character *)
| Class (cs : list char)    (* a set of characters, in square brackets *)
| Dot.                      (* any character but a newline *)

Definition accepts (a : atom) (c : char) : bool :=
  match a with
  | Lit d => N.eqb c d
  | Class cs => existsb (N.eqb c) cs
  | Dot => negb (N.eqb c LF)
  end.

Inductive item :=
| One (a : atom)
| Lazy (a : atom)           (* a*? *)
| Greedy (a : atom)         (* a* *)
| Eol.                      (* the dollar anchor *)

(** A pattern that starts with an atom: a match has at least one character. *)
Record regex := { first : atom; rest : list item }.

(** The dollar anchor without MULTILINE: the end of the string, or just
    before a newline that ends the string. *)
Definition at_end (s : str) : bool :=
  match s with
  | [] => true
  | [c] => N.eqb c LF
  | _ => false
  end.

(** [k] matches the rest of the pattern; the results are match lengths. *)
Fixpoint lazy_star (a : atom) (k : str -> option nat) (s : str) : option nat :=
  match k s with
  | Some n => Some n
  | None =>
      match s with
      | c :: s' => if accepts a c then option_map S (lazy_star a k s') else None
      | [] => None
      end
  end.

Fixpoint greedy_star (a : atom) (k : str -> option nat) (s : str) : option nat :=
  match s with
  | c :: s' =>
      if accepts a c then
        match greedy_star a k s' with
        | Some n => Some (S n)
        | None => k s
        end
      else k s
  | [] => k s
  end.

Fixpoint match_items (p : list item) (s : str) {struct p} : option nat :=
  match p with
  | [] => Some 0
  | One a :: p' =>
      match s with
      | c :: s' => if accepts a c then option_map S (match_items p' s') else None
      | [] => None
      end
  | Lazy a :: p' => lazy_star a (match_items p') s
  | Greedy a :: p' => greedy_star a (match_items p') s
  | Eol :: p' => if at_end s then match_items p' s else None
  end.

(** The length of the match of [r] that starts at the head of [s]. *)
Definition match_at (r : regex) (s : str) : option nat :=
  match s with
  | c :: s' =>
      if accepts (first r) c then option_map S (match_items (rest r) s') else None
  | [] => None
  end.

(** The scan of [re.sub]: the leftmost matches, none overlapping another. *)
Inductive piece :=
| Kept (c : char)
| Removed (span : str).

(** [skip] counts the characters still inside the match found last. *)
Fixpoint pieces_from (r : regex) (skip : nat) (s : str) : list piece :=
  match s with
  | [] => []
  | c :: s' =>
      match skip with
      | S k => pieces_from r k s'
      | O =>
          match match_at r s with
          | Some n => Removed (firstn n s) :: pieces_from r (pred n) s'
          | None => Kept c :: pieces_from r 0 s'
          end
      end
  end.

Definition pieces (r : regex) (s : str) : list piece := pieces_from r 0 s.

Definition replace (repl : str) (p : piece) : str :=
  match p with
  | Kept c => [c]
  | Removed _ => repl
  end.

(** [re.sub(r, repl, s)] for a [repl] without group references. *)
Definition sub (r : regex) (repl : str) (s : str) : str :=
  flat_map (replace repl) (pieces r s).

(** The text a list of pieces was cut from. *)
Definition source (ps : list piece) : str :=
  flat_map (fun p => match p with Kept c => [c] | Removed span => span end) ps.

End Re.

(** ** The script *)

(** A quote of either kind, anything up to the next quote of either kind. *)
Definition quote_re : Re.regex :=
  {| Re.first := Re.Class [DQUOTE; SQUOTE];
     Re.rest := [Re.Lazy Re.Dot; Re.One (Re.Class [DQUOTE; SQUOTE])] |}.

(** Two slashes and everything up to the end of the line. *)
Definition comment_re : Re.regex :=
  {| Re.first := Re.Lit SLASH;
     Re.rest := [Re.One (Re.Lit SLASH); Re.Greedy Re.Dot; Re.Eol] |}.

Definition strip_quotes (line : str) : str := Re.sub quote_re [] line.
Definition strip_comment (line : str) : str := Re.sub comment_re [] line.

Definition clean_line (line : str) : str := strip_comment (strip_quotes line).

(** An entry of [problem_lines]. *)
Record problem := {
  line_num : nat;
  b_count : Z;
  p_count : Z;
  line_text : str
}.

(** The variables of the script. *)
Record state := {
  brace_count : Z;
  paren_count : Z;
  problem_lines : list problem
}.

Definition init : state :=
  {| brace_count := 0; paren_count := 0; problem_lines := [] |}.

(** The body of [for char in clean_line]. *)
Definition scan_char (st : state) (c : char) : state :=
  if N.eqb c LBRACE then
    {| brace_count := brace_count st + 1; paren_count := paren_count st;
       problem_lines := problem_lines st |}
  else if N.eqb c RBRACE then
    {| brace_count := brace_count st - 1; paren_count := paren_count st;
       problem_lines := problem_lines st |}
  else if N.eqb c LPAREN then
    {| brace_count := brace_count st; paren_count := paren_count st + 1;
       problem_lines := problem_lines st |}
  else if N.eqb c RPAREN then
    {| brace_count := brace_count st; paren_count := paren_count st - 1;
       problem_lines := problem_lines st |}
  else st.

Definition scan_chars (st : state) (s : str) : state := fold_left scan_char s st.

Definition negative (st : state) : bool :=
  (brace_count st <? 0)%Z || (paren_count st <? 0)%Z.

(** The body of [for i, line in enumerate(lines, 1)]. *)
Definition scan_line (st : state) (il : nat * str) : state :=
  let (i, line) := il in
  let st' := scan_chars st (clean_line line) in
  if negative st' then
    {| brace_count := brace_count st'; paren_count := paren_count st';
       problem_lines :=
         problem_lines st' ++
         [{| line_num := i; b_count := brace_count st';
             p_count := paren_count st'; line_text := strip line |}] |}
  else st'.

Definition enumerate {A : Type} (start : nat) (l : list A) : list (nat * A) :=
  combine (seq start (length l)) l.

Definition scan_from (st : state) (start : nat) (lines : list str) : state :=
  fold_left scan_line (enumerate start lines) st.

Definition scan (lines : list str) : state := scan_from init 1 lines.

(** *** The report

    The standard output is the list of the strings given to [print], each
    of which [print] ends with a newline. *)

Definition header : str := lit "Lines where balance goes negative:".

Definition print_problem (p : problem) : list str :=
  [ lit "Line " ++ str_of_Z (Z.of_nat (line_num p)) ++ lit ": braces="
      ++ str_of_Z (b_count p) ++ lit ", parens=" ++ str_of_Z (p_count p);
    lit "  " ++ firstn 80 (line_text p) ].

Definition final_counts (b p : Z) : str :=
  LF :: lit "Final counts: braces=" ++ str_of_Z b ++ lit ", parens="
    ++ str_of_Z p.

Definition printed (st : state) : list problem := firstn 10 (problem_lines st).

Definition report (st : state) : list str :=
  header :: flat_map print_problem (printed st)
    ++ [final_counts (brace_count st) (paren_count st)].

Definition stdout_text (out : list str) : str :=
  flat_map (fun s => s ++ [LF]) out.

(** *** Reading the file

    [open(path, 'r')] fails with an [OSError] unless the path is a file
    that can be opened and read: [FileNotFoundError], [PermissionError],
    [IsADirectoryError], [NotADirectoryError] when a directory of the path
    is a file, or another [OSError] with the error number the operating
    system gives.  In text mode the bytes of the file are decoded with the
    encoding of the locale, and strictly: [readlines] fails with a
    [UnicodeDecodeError] on bytes that are no text in that encoding.  Every
    line end of the text becomes a newline, and [readlines] cuts the text
    after each newline. *)

Inductive OSError :=
| FileNotFoundError
| PermissionError
| IsADirectoryError
| NotADirectoryError
| OtherOSError (errno : N).

Inductive exn :=
| OS (e : OSError)
| UnicodeDecodeError
| UnicodeEncodeError.

(** What is at the path of the script. *)
Inductive node :=
| Missing
| Unreadable
| Directory
| BelowFile                (* a directory of the path is a file *)
| Failing (errno : N)      (* the operating system refuses otherwise *)
| File (data : list byte).

Definition open_read (n : node) : OSError + list byte :=
  match n with
  | Missing => inl FileNotFoundError
  | Unreadable => inl PermissionError
  | Directory => inl IsADirectoryError
  | BelowFile => inl NotADirectoryError
  | Failing errno => inl (OtherOSError errno)
  | File data => inr data
  end.

(** The decoder of an encoding: the text of the bytes, if they are text. *)
Definition codec := list byte -> option str.

Definition in_range (lo hi b : N) : bool := N.leb lo b && N.leb b hi.

(** The second byte a first byte of UTF-8 allows: no overlong form, no
    surrogate, nothing above U+10FFFF. *)
Definition second_byte (b0 b1 : N) : bool :=
  if N.eqb b0 224 then in_range 160 191 b1
  else if N.eqb b0 237 then in_range 128 159 b1
  else if N.eqb b0 240 then in_range 144 191 b1
  else if N.eqb b0 244 then in_range 128 143 b1
  else in_range 128 191 b1.

(** UTF-8, the encoding of most locales. *)
Fixpoint utf_8 (data : list byte) : option str :=
  match data with
  | [] => Some []
  | x0 :: d0 =>
      let b0 := Byte.to_N x0 in
      if N.ltb b0 128 then option_map (cons b0) (utf_8 d0)
      else if in_range 194 223 b0 then
        match d0 with
        | x1 :: d1 =>
            let b1 := Byte.to_N x1 in
            if in_range 128 191 b1 then
              option_map (cons ((b0 - 192) * 64 + (b1 - 128))%N) (utf_8 d1)
            else None
        | _ => None
        end
      else if in_range 224 239 b0 then
        match d0 with
        | x1 :: x2 :: d2 =>
            let b1 := Byte.to_N x1 in
            let b2 := Byte.to_N x2 in
            if second_byte b0 b1 && in_range 128 191 b2 then
              option_map
                (cons ((b0 - 224) * 4096 + (b1 - 128) * 64 + (b2 - 128))%N)
                (utf_8 d2)
            else None
        | _ => None
        end
      else if in_range 240 244 b0 then
        match d0 with
        | x1 :: x2 :: x3 :: d3 =>
            let b1 := Byte.to_N x1 in
            let b2 := Byte.to_N x2 in
            let b3 := Byte.to_N x3 in
            if second_byte b0 b1 && in_range 128 191 b2 && in_range 128 191 b3
            then
              option_map
                (cons ((b0 - 240) * 262144 + (b1 - 128) * 4096
                       + (b2 - 128) * 64 + (b3 - 128))%N)
                (utf_8 d3)
            else None
        | _ => None
        end
      else None
  end.


Fixpoint universal_newlines (s : str) : str :=
  match s with
  | [] => []
  | c :: s' =>
      if N.eqb c CR then
        match s' with
        | d :: s'' =>
            if N.eqb d LF then LF :: universal_newlines s''
            else LF :: universal_newlines s'
        | [] => [LF]
        end
      else c :: universal_newlines s'
  end.

Fixpoint split_lines (s : str) : list str :=
  match s with
  | [] => []
  | c :: s' =>
      if N.eqb c LF then [c] :: split_lines s'
      else
        match split_lines s' with
        | [] => [[c]]
        | l :: ls => (c :: l) :: ls
        end
  end.

Definition readlines (text : str) : list str :=
  split_lines (universal_newlines text).

(** *** Writing the report

    [print] encodes its string and the newline after it with the encoding
    of the standard output, and strictly: it fails with a
    [UnicodeEncodeError] on a character that encoding does not have.  What
    was printed before stays printed. *)

(** The characters an encoding has. *)
Definition charset := char -> bool.

Definition ascii_chars : charset := fun c => N.ltb c 128.

(** The characters of UTF-8: all but the surrogates, up to U+10FFFF. *)
Definition unicode_chars : charset :=
  fun c => N.ltb c 55296 || N.leb 57344 c && N.leb c 1114111.

Definition any_char : charset := fun _ => true.

Definition printable (has : charset) (s : str) : bool := forallb has (s ++ [LF]).

(** The strings of [todo] that are printed, and whether all of them are. *)
Fixpoint print_all (has : charset) (todo : list str) : list str * bool :=
  match todo with
  | [] => ([], true)
  | s :: todo' =>
      if printable has s then
        let (out, ok) := print_all has todo' in (s :: out, ok)
      else ([], false)
  end.

(** How a run ends: with the exception that was raised and what was
    printed before it, or with the variables of the script and what it
    printed. *)
Inductive outcome :=
| Raised (e : exn) (out : list str)
| Finished (st : state) (out : list str).

(** A run of the script on the node at its path, in an environment whose
    input encoding is decoded by [decode] and whose standard output has
    the characters [has]: the node after the run, and the outcome. *)
Definition run_io (decode : codec) (has : charset) (n : node) : node * outcome :=
  match open_read n with
  | inl e => (n, Raised (OS e) [])
  | inr data =>
      match decode data with
      | None => (n, Raised UnicodeDecodeError [])
      | Some text =>
          let st := scan (readlines text) in
          match print_all has (report st) with
          | (out, true) => (n, Finished st out)
          | (out, false) => (n, Raised UnicodeEncodeError out)
          end
      end
  end.

(** A run whose standard output takes every character. *)
Definition run (decode : codec) (n : node) : node * outcome :=
  run_io decode any_char n.

(** ** Vocabulary of the properties *)

Definition is_quote (c : char) : bool := N.eqb c DQUOTE || N.eqb c SQUOTE.

(** Neither a quote nor a newline. *)
Definition plain (c : char) : bool := negb (is_quote c) && negb (N.eqb c LF).

(** The distance to the first quote of [s], when no newline comes before it. *)
Fixpoint closing (s : str) : option nat :=
  match s with
  | [] => None
  | c :: s' =>
      if is_quote c then Some 0
      else if N.eqb c LF then None
      else option_map S (closing s')
  end.

(** A span that opens and closes with one and the same quote character. *)
Definition same_quote_span (span : str) : Prop :=
  exists q body, is_quote q = true /\ span = q :: body ++ [q].

(** The number of the characters [c] in [s]. *)
Fixpoint occurrences (c : char) (s : str) : Z :=
  match s with
  | [] => 0
  | d :: s' => (if N.eqb d c then 1 else 0) + occurrences c s'
  end.

(** The number of the characters [c] in all of [texts]. *)
Definition total (c : char) (texts : list str) : Z :=
  fold_right (fun s n => occurrences c s + n)%Z 0%Z texts.

(** The record of line [k] of [lines]: there is one when a counter is
    negative after the first [k] lines. *)
Definition record_at (lines : list str) (k : nat) : list problem :=
  let st := scan (firstn k lines) in
  if negative st then
    [{| line_num := k; b_count := brace_count st; p_count := paren_count st;
        line_text := strip (nth (k - 1) lines []) |}]
  else [].



(** The number of quotes, of either kind, in [s]. *)
Definition quotes (s : str) : nat := length (filter is_quote s).

Definition even_quotes (s : str) : bool := Nat.even (quotes s).

Definition no_newline (s : str) : bool :=
  forallb (fun c => negb (N.eqb c LF)) s.

(** No newline but at the very end, as in every line [readlines] gives. *)
Fixpoint one_line (s : str) : bool :=
  match s with
  | [] => true
  | c :: s' =>
      match s' with
      | [] => true
      | _ :: _ => negb (N.eqb c LF) && one_line s'
      end
  end.

(** The four characters the counters react to. *)
Definition is_delimiter (c : char) : bool :=
  N.eqb c LBRACE || N.eqb c RBRACE || N.eqb c LPAREN || N.eqb c RPAREN.

Definition significant (s : str) : str := filter is_delimiter s.

(** The number of characters before the end of the line, when [s] is one
    line. *)
Fixpoint to_eol (s : str) : option nat :=
  match s with
  | [] => Some 0
  | c :: s' =>
      if N.eqb c LF then match s' with [] => Some 0 | _ :: _ => None end
      else option_map S (to_eol s')
  end.

(** The text of a string literal delimited by the quote [q]: neither [q]
    nor a newline is in it. *)
Definition literal_body (q : char) (body : str) : bool :=
  forallb (fun c => negb (N.eqb c q) && negb (N.eqb c LF)) body.

(** [s] is code that ends outside every string literal, where a literal
    runs from a quote to the next quote of the same kind; [inside] is the
    quote of the literal [s] starts in. *)
Fixpoint lexes (inside : option char) (s : str) : bool :=
  match s with
  | [] => match inside with None => true | Some _ => false end
  | c :: s' =>
      match inside with
      | None =>
          if is_quote c then lexes (Some c) s'
          else negb (N.eqb c LF) && lexes None s'
      | Some q =>
          if N.eqb c q then lexes None s'
          else negb (N.eqb c LF) && lexes (Some q) s'
      end
  end.

(** The lines of the examples: three closing braces in double quotes; an
    apostrophe and a closing brace in double quotes; closing parentheses
    in a comment; an apostrophe in double quotes, then a comment with an
    apostrophe and a closing parenthesis. *)
Definition braces_in_quotes : str :=
  lit "x = " ++ DQUOTE :: [RBRACE; RBRACE; RBRACE] ++ [DQUOTE].

Definition apostrophe_in_quotes : str :=
  lit "x = " ++ DQUOTE :: [SQUOTE; RBRACE] ++ [DQUOTE].

Definition parens_in_comment : str :=
  lit "foo(); " ++ SLASH :: SLASH :: lit " )))".

Definition apostrophe_code : str :=
  lit "x = " ++ DQUOTE :: [SQUOTE] ++ DQUOTE :: lit "; ".

Definition apostrophe_comment : str := SPACE :: SQUOTE :: [RPAREN].

Definition apostrophe_before_comment : str :=
  apostrophe_code ++ SLASH :: SLASH :: apostrophe_comment.

(** Two slashes side by side somewhere in [s]. *)
Fixpoint has_comment (s : str) : bool :=
  match s with
  | [] => false
  | c :: s' =>
      match s' with
      | d :: _ => N.eqb c SLASH && N.eqb d SLASH || has_comment s'
      | [] => false
      end
  end.

(** The newline that ends [s], if one does. *)
Definition eol (s : str) : str := if N.eqb (last s 0%N) LF then [LF] else [].

(** The standard output has the 128 characters of ASCII. *)
Definition ascii_capable (has : charset) : bool :=
  forallb has (map N.of_nat (seq 0 128)).


(** [t] with each of its newlines written as the line end [e]. *)
Definition with_line_end (e : str) (t : str) : str :=
  flat_map (fun c => if N.eqb c LF then e else [c]) t.

(** The bytes of a closing brace and of the two bytes that are an e with
    acute accent in UTF-8, and two characters in Latin-1. *)
Definition accent_data : list byte := [Byte.x7d; Byte.xc3; Byte.xa9].

(** ** The scan of [re.sub] *)

Section Pieces.

Variable r : Re.regex.

Lemma match_at_positive (s : str) (n : nat) :
  Re.match_at r s = Some n -> exists m, n = S m.
Proof.
  destruct s as [|c s']; simpl; [discriminate|].
  destruct (Re.accepts _ c); [|discriminate].
  destruct (Re.match_items _ s'); simpl; [|discriminate].
  intros [= <-]. eauto.
Qed.

Lemma pieces_from_skipn (k : nat) (s : str) :
  Re.pieces_from r k s = Re.pieces r (skipn k s).
Proof.
  revert k; induction s as [|c s IH]; intros [|k]; simpl; try reflexivity.
  apply IH.
Qed.

Lemma pieces_kept (c : char) (s : str) :
  Re.match_at r (c :: s) = None ->
  Re.pieces r (c :: s) = Re.Kept c :: Re.pieces r s.
Proof.
  intros H. unfold Re.pieces. cbn [Re.pieces_from]. rewrite H. reflexivity.
Qed.

Lemma pieces_removed (c : char) (s : str) (m : nat) :
  Re.match_at r (c :: s) = Some (S m) ->
  Re.pieces r (c :: s) = Re.Removed (c :: firstn m s) :: Re.pieces r (skipn m s).
Proof.
  intros H. unfold Re.pieces at 1. cbn [Re.pieces_from]. rewrite H.
  cbn [pred firstn]. rewrite pieces_from_skipn. reflexivity.
Qed.

(** Induction along the scan: a character is kept where no match starts,
    and the scan goes on behind a match. *)
Lemma pieces_induction (P : str -> list Re.piece -> Prop) :
  P [] [] ->
  (forall c s, Re.match_at r (c :: s) = None ->
     P s (Re.pieces r s) -> P (c :: s) (Re.Kept c :: Re.pieces r s)) ->
  (forall c s m, Re.match_at r (c :: s) = Some (S m) ->
     P (skipn m s) (Re.pieces r (skipn m s)) ->
     P (c :: s) (Re.Removed (c :: firstn m s) :: Re.pieces r (skipn m s))) ->
  forall s, P s (Re.pieces r s).
Proof.
  intros Hnil Hkept Hrem s.
  remember (length s) as n eqn:Hn. revert s Hn.
  induction n as [n IH] using (well_founded_induction lt_wf).
  intros [|c s] Hn; [exact Hnil|].
  destruct (Re.match_at r (c :: s)) as [k|] eqn:E.
  - destruct (match_at_positive _ _ E) as [m ->].
    rewrite (pieces_removed _ _ _ E). apply Hrem; [exact E|].
    apply (IH (length (skipn m s))); [|reflexivity].
    subst n. rewrite length_skipn. simpl. lia.
  - rewrite (pieces_kept _ _ E). apply Hkept; [exact E|].
    apply (IH (length s)); [subst n; simpl; lia | reflexivity].
Qed.

Lemma source_pieces (s : str) : Re.source (Re.pieces r s) = s.
Proof.
  apply (pieces_induction (fun s ps => Re.source ps = s)).
  - reflexivity.
  - intros c s' _ IH. simpl. now rewrite IH.
  - intros c s' m _ IH. unfold Re.source in *. cbn [flat_map]. rewrite IH.
    simpl. now rewrite firstn_skipn.
Qed.

Lemma sub_nil (repl : str) : Re.sub r repl [] = [].
Proof. reflexivity. Qed.

Lemma sub_kept (repl : str) (c : char) (s : str) :
  Re.match_at r (c :: s) = None ->
  Re.sub r repl (c :: s) = c :: Re.sub r repl s.
Proof. intros H. unfold Re.sub. now rewrite (pieces_kept _ _ H). Qed.

Lemma sub_removed (repl : str) (c : char) (s : str) (m : nat) :
  Re.match_at r (c :: s) = Some (S m) ->
  Re.sub r repl (c :: s) = repl ++ Re.sub r repl (skipn m s).
Proof. intros H. unfold Re.sub. now rewrite (pieces_removed _ _ _ H). Qed.

End Pieces.

(** ** Quoted spans *)

Lemma accepts_quote (c : char) :
  Re.accepts (Re.Class [DQUOTE; SQUOTE]) c = is_quote c.
Proof. unfold is_quote. simpl. now rewrite orb_false_r. Qed.

Lemma lazy_closing (s : str) :
  Re.lazy_star Re.Dot (Re.match_items [Re.One (Re.Class [DQUOTE; SQUOTE])]) s
  = option_map S (closing s).
Proof.
  set (k := Re.match_items [Re.One (Re.Class [DQUOTE; SQUOTE])]).
  assert (Hnil : k [] = None) by reflexivity.
  assert (Hk : forall c s', k (c :: s') = if is_quote c then Some 1 else None).
  { intros c s'. unfold k. cbn [Re.match_items]. now rewrite accepts_quote. }
  clearbody k.
  induction s as [|c s IH]; cbn [Re.lazy_star closing].
  - now rewrite Hnil.
  - rewrite Hk. destruct (is_quote c); [reflexivity|].
    cbn [Re.accepts]. destruct (N.eqb c LF); cbn [negb]; [reflexivity|].
    now rewrite IH.
Qed.

Lemma match_at_quote (c : char) (s : str) :
  Re.match_at quote_re (c :: s)
  = if is_quote c then option_map (fun k => S (S k)) (closing s) else None.
Proof.
  unfold Re.match_at, quote_re. cbn [Re.first Re.rest].
  rewrite accepts_quote. destruct (is_quote c); [|reflexivity].
  change (Re.match_items _ s) with
    (Re.lazy_star Re.Dot (Re.match_items [Re.One (Re.Class [DQUOTE; SQUOTE])]) s).
  rewrite lazy_closing. now destruct (closing s).
Qed.

Lemma closing_found (body : str) (q : char) (tail : str) :
  forallb plain body = true -> is_quote q = true ->
  closing (body ++ q :: tail) = Some (length body).
Proof.
  intros Hb Hq. induction body as [|b body IH]; simpl.
  - now rewrite Hq.
  - simpl in Hb. apply andb_prop in Hb as [Hp Hb]. unfold plain in Hp.
    apply andb_prop in Hp as [Hn Hl].
    apply negb_true_iff in Hn, Hl. rewrite Hn, Hl, (IH Hb). reflexivity.
Qed.

Lemma closing_some (s : str) (k : nat) :
  closing s = Some k ->
  exists body q tail, s = body ++ q :: tail /\ length body = k
    /\ forallb plain body = true /\ is_quote q = true.
Proof.
  revert k; induction s as [|c s IH]; intros k; simpl; [discriminate|].
  destruct (is_quote c) eqn:Q.
  - intros [= <-]. exists [], c, s. auto.
  - destruct (N.eqb c LF) eqn:L; [discriminate|].
    destruct (closing s) as [j|] eqn:E; [|discriminate].
    intros [= <-]. destruct (IH j eq_refl) as (body & q & tail & -> & Hl & Hp & Hq).
    exists (c :: body), q, tail. cbn [length forallb app].
    unfold plain at 1. rewrite Q, L, Hp, Hl. auto.
Qed.

Lemma closing_none (s : str) :
  closing s = None ->
  forall body q tail, s = body ++ q :: tail -> is_quote q = true -> In LF body.
Proof.
  intros H body; revert s H.
  induction body as [|b body IH]; intros s H q tail -> Hq; simpl in H.
  - now rewrite Hq in H.
  - destruct (is_quote b); [discriminate|].
    destruct (N.eqb b LF) eqn:L.
    + apply N.eqb_eq in L. now left.
    + right. destruct (closing (body ++ q :: tail)) eqn:E; [discriminate|].
      exact (IH _ E q tail eq_refl Hq).
Qed.

Lemma firstn_span (body : str) (q : char) (tail : str) :
  firstn (S (length body)) (body ++ q :: tail) = body ++ [q].
Proof. induction body as [|b body IH]; [reflexivity|]. simpl in *. now rewrite IH. Qed.

Lemma skipn_span (body : str) (q : char) (tail : str) :
  skipn (S (length body)) (body ++ q :: tail) = tail.
Proof. induction body as [|b body IH]; [reflexivity|]. exact IH. Qed.

(** What a match of [quote_re] is: a quote, plain text, a quote. *)
Lemma match_at_quote_some (c : char) (s : str) (m : nat) :
  Re.match_at quote_re (c :: s) = Some (S m) ->
  exists body q tail, s = body ++ q :: tail /\ m = S (length body)
    /\ is_quote c = true /\ forallb plain body = true /\ is_quote q = true.
Proof.
  rewrite match_at_quote. destruct (is_quote c) eqn:Q; [|discriminate].
  destruct (closing s) as [k|] eqn:E; [|discriminate].
  intros [= <-]. destruct (closing_some _ _ E) as (body & q & tail & Hs & Hl & Hp & Hq).
  exists body, q, tail. rewrite Hl. auto.
Qed.

Lemma match_at_quote_none (c : char) (s : str) :
  Re.match_at quote_re (c :: s) = None -> is_quote c = true -> closing s = None.
Proof.
  rewrite match_at_quote. intros H Q. rewrite Q in H.
  now destruct (closing s).
Qed.

Lemma removed_spans (line span : str) :
  In (Re.Removed span) (Re.pieces quote_re line) ->
  exists q1 body q2, span = q1 :: body ++ [q2] /\ is_quote q1 = true
    /\ is_quote q2 = true /\ forallb plain body = true.
Proof.
  revert span.
  apply (pieces_induction quote_re (fun _ ps => forall span,
    In (Re.Removed span) ps -> exists q1 body q2, span = q1 :: body ++ [q2]
      /\ is_quote q1 = true /\ is_quote q2 = true /\ forallb plain body = true)).
  - intros span [].
  - intros c s _ IH span [H|H]; [discriminate | now apply IH].
  - intros c s m E IH span [H|H]; [|now apply IH].
    destruct (match_at_quote_some _ _ _ E) as (body & q & tail & -> & -> & Q1 & Hp & Q2).
    injection H as <-. exists c, body, q.
    split; [f_equal; exact (firstn_span body q tail) | auto].
Qed.

Lemma kept_quotes (line : str) (before after : list Re.piece) (c : char) :
  Re.pieces quote_re line = before ++ Re.Kept c :: after ->
  is_quote c = true -> closing (Re.source after) = None.
Proof.
  revert before.
  apply (pieces_induction quote_re (fun _ ps => forall before,
    ps = before ++ Re.Kept c :: after -> is_quote c = true ->
    closing (Re.source after) = None)).
  - intros [|p before]; discriminate.
  - intros c0 s E IH [|p before] H Q.
    + injection H as -> <-. rewrite source_pieces.
      now apply (match_at_quote_none c).
    + injection H as _ H. now apply (IH before).
  - intros c0 s m _ IH [|p before] H Q; [discriminate|].
    injection H as _ H. now apply (IH before).
Qed.

(** C1, as the code has it: the quote-stripping step cuts the line into
    kept characters and removed spans.  A removed span opens with a quote
    of either kind and closes with the nearest quote of either kind that
    follows it on the line: between the two there is neither a quote nor a
    newline, and the two need not be of the same kind.  A quote is kept
    only where no quote follows it before the next newline. *)
Theorem strip_quotes_spans (line : str) :
  strip_quotes line = flat_map (Re.replace []) (Re.pieces quote_re line)
  /\ Re.source (Re.pieces quote_re line) = line
  /\ (forall span, In (Re.Removed span) (Re.pieces quote_re line) ->
       exists q1 body q2, span = q1 :: body ++ [q2] /\ is_quote q1 = true
         /\ is_quote q2 = true /\ forallb plain body = true)
  /\ (forall before c after,
       Re.pieces quote_re line = before ++ Re.Kept c :: after ->
       is_quote c = true ->
       forall body q tail, Re.source after = body ++ q :: tail ->
       is_quote q = true -> In LF body).
Proof.
  split; [reflexivity|]. split; [apply source_pieces|].
  split; [apply removed_spans|].
  intros before c after H Q body q tail Hs Hq.
  apply (closing_none (Re.source after)) with (q := q) (tail := tail); auto.
  exact (kept_quotes _ _ _ _ H Q).
Qed.

(** C1, as stated, does not hold: on a double quote, a brace and a
    single quote the step removes the whole text, a span whose two quotes
    are of different kinds. *)
Lemma mixed_quotes_removed :
  In (Re.Removed [DQUOTE; RBRACE; SQUOTE])
     (Re.pieces quote_re [DQUOTE; RBRACE; SQUOTE])
  /\ strip_quotes [DQUOTE; RBRACE; SQUOTE] = []
  /\ ~ same_quote_span [DQUOTE; RBRACE; SQUOTE].
Proof.
  split; [now left|]. split; [reflexivity|].
  intros (q & body & _ & H). injection H as <- H.
  assert (E : rev (RBRACE :: [SQUOTE]) = rev (body ++ [DQUOTE])) by now rewrite H.
  rewrite rev_app_distr in E. discriminate E.
Qed.

(** ** The counters *)

Lemma scan_char_counts (st : state) (c : char) :
  brace_count (scan_char st c)
    = (brace_count st + occurrences LBRACE [c] - occurrences RBRACE [c])%Z
  /\ paren_count (scan_char st c)
    = (paren_count st + occurrences LPAREN [c] - occurrences RPAREN [c])%Z
  /\ problem_lines (scan_char st c) = problem_lines st.
Proof.
  unfold scan_char, occurrences.
  destruct (N.eqb_spec c LBRACE) as [->|_]; [simpl; repeat split; lia|].
  destruct (N.eqb_spec c RBRACE) as [->|_]; [simpl; repeat split; lia|].
  destruct (N.eqb_spec c LPAREN) as [->|_]; [simpl; repeat split; lia|].
  destruct (N.eqb_spec c RPAREN) as [->|_]; simpl; repeat split; lia.
Qed.

Lemma scan_chars_counts (s : str) (st : state) :
  brace_count (scan_chars st s)
    = (brace_count st + occurrences LBRACE s - occurrences RBRACE s)%Z
  /\ paren_count (scan_chars st s)
    = (paren_count st + occurrences LPAREN s - occurrences RPAREN s)%Z
  /\ problem_lines (scan_chars st s) = problem_lines st.
Proof.
  revert st; induction s as [|c s IH]; intros st.
  - simpl. repeat split; lia.
  - change (scan_chars st (c :: s)) with (scan_chars (scan_char st c) s).
    destruct (IH (scan_char st c)) as (Hb & Hp & Hl).
    destruct (scan_char_counts st c) as (Hb1 & Hp1 & Hl1).
    rewrite Hb, Hp, Hl, Hb1, Hp1, Hl1.
    cbn [occurrences]. repeat split; lia.
Qed.

(** A line changes the counters as its cleaned text does, and adds at most
    one record, its own. *)
Lemma scan_line_spec (st : state) (i : nat) (line : str) :
  let st' := scan_chars st (clean_line line) in
  brace_count (scan_line st (i, line)) = brace_count st'
  /\ paren_count (scan_line st (i, line)) = paren_count st'
  /\ problem_lines (scan_line st (i, line))
     = problem_lines st ++
       (if negative st' then
          [{| line_num := i; b_count := brace_count st';
              p_count := paren_count st'; line_text := strip line |}]
        else []).
Proof.
  intros st'. unfold scan_line. fold st'.
  destruct (scan_chars_counts (clean_line line) st) as (_ & _ & Hl). fold st' in Hl.
  destruct (negative st'); cbn [brace_count paren_count problem_lines];
    rewrite Hl; auto using app_nil_r.
Qed.

Lemma scan_from_cons (st : state) (i : nat) (line : str) (lines : list str) :
  scan_from st i (line :: lines) = scan_from (scan_line st (i, line)) (S i) lines.
Proof. reflexivity. Qed.

Lemma scan_from_counts (lines : list str) (st : state) (i : nat) :
  brace_count (scan_from st i lines)
    = (brace_count st + total LBRACE (map clean_line lines)
       - total RBRACE (map clean_line lines))%Z
  /\ paren_count (scan_from st i lines)
    = (paren_count st + total LPAREN (map clean_line lines)
       - total RPAREN (map clean_line lines))%Z.
Proof.
  revert st i; induction lines as [|line lines IH]; intros st i.
  - change (scan_from st i []) with st. simpl. lia.
  - rewrite scan_from_cons. destruct (IH (scan_line st (i, line)) (S i)) as (Hb & Hp).
    destruct (scan_line_spec st i line) as (Hb1 & Hp1 & _).
    destruct (scan_chars_counts (clean_line line) st) as (Hb2 & Hp2 & _).
    rewrite Hb, Hp, Hb1, Hp1, Hb2, Hp2. cbn [map total fold_right].
    fold (total LBRACE (map clean_line lines)) (total RBRACE (map clean_line lines))
      (total LPAREN (map clean_line lines)) (total RPAREN (map clean_line lines)).
    lia.
Qed.

Lemma scan_counts (lines : list str) :
  brace_count (scan lines)
    = (total LBRACE (map clean_line lines) - total RBRACE (map clean_line lines))%Z
  /\ paren_count (scan lines)
    = (total LPAREN (map clean_line lines) - total RPAREN (map clean_line lines))%Z.
Proof.
  destruct (scan_from_counts lines init 1) as (Hb & Hp).
  unfold scan. rewrite Hb, Hp. simpl. lia.
Qed.

(** C2: after the whole file [brace_count] is the number of opening braces
    minus the number of closing braces in the cleaned lines, and
    [paren_count] the same for parentheses; two files with the same cleaned
    lines end with the same counters, whatever their raw lines. *)
Theorem counters_are_totals (lines : list str) :
  brace_count (scan lines)
    = (total LBRACE (map clean_line lines) - total RBRACE (map clean_line lines))%Z
  /\ paren_count (scan lines)
    = (total LPAREN (map clean_line lines) - total RPAREN (map clean_line lines))%Z
  /\ (forall lines', map clean_line lines' = map clean_line lines ->
       brace_count (scan lines') = brace_count (scan lines)
       /\ paren_count (scan lines') = paren_count (scan lines)).
Proof.
  destruct (scan_counts lines) as (Hb & Hp). split; [exact Hb|]. split; [exact Hp|].
  intros lines' E. destruct (scan_counts lines') as (Hb' & Hp').
  rewrite Hb', Hp', Hb, Hp, E. auto.
Qed.

(** ** The problem records *)

Lemma scan_from_problems (lines : list str) (st : state) (i : nat) :
  exists new,
    problem_lines (scan_from st i lines) = problem_lines st ++ new
    /\ StronglySorted lt (map line_num new)
    /\ Forall (fun p => i <= line_num p < i + length lines) new.
Proof.
  revert st i; induction lines as [|line lines IH]; intros st i.
  - exists []. change (scan_from st i []) with st. rewrite app_nil_r.
    repeat split; constructor.
  - rewrite scan_from_cons.
    destruct (IH (scan_line st (i, line)) (S i)) as (new & Hn & Hs & Hb).
    destruct (scan_line_spec st i line) as (_ & _ & Hl).
    rewrite Hn, Hl, <- app_assoc.
    assert (Hb' : Forall (fun p => i <= line_num p < i + length (line :: lines)) new).
    { eapply Forall_impl; [|exact Hb]. simpl. intros p. lia. }
    eexists; split; [reflexivity|].
    destruct (negative _); cbn [app map line_num].
    + split.
      * constructor; [exact Hs|]. apply Forall_map.
        eapply Forall_impl; [|exact Hb]. simpl. intros p. lia.
      * constructor; [simpl; lia | exact Hb'].
    + split; [exact Hs | exact Hb'].
Qed.

(** C10: the line numbers of the problem records are strictly increasing:
    every record has a smaller line number than every record after it, so
    no line has two records and the records are in file order.  The line
    numbers are those of the file, from 1 on. *)
Theorem line_numbers_increase (lines : list str) :
  StronglySorted lt (map line_num (problem_lines (scan lines)))
  /\ Forall (fun p => 1 <= line_num p <= length lines) (problem_lines (scan lines)).
Proof.
  destruct (scan_from_problems lines init 1) as (new & Hn & Hs & Hb).
  unfold scan. rewrite Hn. cbn [init problem_lines app].
  split; [exact Hs|].
  eapply Forall_impl; [|exact Hb]. simpl. intros p. lia.
Qed.

Lemma enumerate_snoc {A : Type} (l : list A) (a : A) (i : nat) :
  enumerate i (l ++ [a]) = enumerate i l ++ [(i + length l, a)].
Proof.
  revert i; induction l as [|b l IH]; intros i.
  - unfold enumerate. simpl. now rewrite Nat.add_0_r.
  - change (enumerate i ((b :: l) ++ [a])) with ((i, b) :: enumerate (S i) (l ++ [a])).
    rewrite IH. simpl. now rewrite Nat.add_succ_r.
Qed.

Lemma scan_snoc (lines : list str) (line : str) :
  scan (lines ++ [line]) = scan_line (scan lines) (S (length lines), line).
Proof.
  unfold scan, scan_from. rewrite enumerate_snoc, fold_left_app. reflexivity.
Qed.

Lemma record_at_snoc (lines : list str) (line : str) (k : nat) :
  1 <= k <= length lines ->
  record_at (lines ++ [line]) k = record_at lines k.
Proof.
  intros Hk. unfold record_at.
  rewrite firstn_app. replace (k - length lines) with 0 by lia.
  rewrite firstn_O, app_nil_r, app_nth1 by lia. reflexivity.
Qed.

Lemma record_at_last (lines : list str) (line : str) :
  let st' := scan_chars (scan lines) (clean_line line) in
  record_at (lines ++ [line]) (S (length lines))
  = if negative st' then
      [{| line_num := S (length lines); b_count := brace_count st';
          p_count := paren_count st'; line_text := strip line |}]
    else [].
Proof.
  intros st'. unfold record_at.
  rewrite firstn_all2 by (rewrite length_app; simpl; lia).
  rewrite scan_snoc.
  destruct (scan_line_spec (scan lines) (S (length lines)) line) as (Hb & Hp & _).
  fold st' in Hb, Hp.
  replace (negative (scan_line (scan lines) (S (length lines), line)))
    with (negative st') by (unfold negative; now rewrite Hb, Hp).
  rewrite Hb, Hp. simpl. rewrite Nat.sub_0_r, nth_middle. reflexivity.
Qed.

(** Every line after which a counter is negative has its record, in file
    order: none is left out, whatever their number. *)
Lemma problems_all (lines : list str) :
  problem_lines (scan lines) = flat_map (record_at lines) (seq 1 (length lines)).
Proof.
  induction lines as [|line lines IH] using rev_ind; [reflexivity|].
  rewrite length_app, Nat.add_comm. cbn [length Nat.add].
  rewrite seq_S, flat_map_app. cbn [flat_map Nat.add]. rewrite app_nil_r.
  rewrite record_at_last, scan_snoc.
  destruct (scan_line_spec (scan lines) (S (length lines)) line) as (_ & _ & Hl).
  rewrite Hl, IH. f_equal.
  rewrite !flat_map_concat_map. f_equal. apply map_ext_in.
  intros k Hk. apply in_seq in Hk. symmetry. apply record_at_snoc. lia.
Qed.

Lemma report_length (st : state) :
  length (report st) = 2 + 2 * length (printed st).
Proof.
  unfold report. cbn [length]. rewrite length_app. cbn [length].
  induction (printed st) as [|p ps IH]; simpl in *; lia.
Qed.

(** C4: for the file whose only line is a closing brace, with or without
    a line end after it, [problem_lines] has exactly one record: line 1,
    [brace_count] -1 and [paren_count] 0. *)
Theorem single_closing_brace :
  problem_lines (scan (readlines [RBRACE]))
  = [{| line_num := 1; b_count := -1; p_count := 0; line_text := [RBRACE] |}]
  /\ problem_lines (scan (readlines [RBRACE; LF]))
  = [{| line_num := 1; b_count := -1; p_count := 0; line_text := [RBRACE] |}]
  /\ (forall data, data = [Byte.x7d] \/ data = [Byte.x7d; Byte.x0a] ->
      exists out,
        snd (run utf_8 (File data))
        = Finished
            {| brace_count := -1; paren_count := 0;
               problem_lines :=
                 [{| line_num := 1; b_count := -1; p_count := 0;
                     line_text := [RBRACE] |}] |} out).
Proof.
  split; [|split].
  - rewrite problems_all. reflexivity.
  - rewrite problems_all. reflexivity.
  - intros data [-> | ->]; eexists; reflexivity.
Qed.

(** C9: for the empty file there is no record, and the run prints the
    header and then the final counts, both 0. *)
Theorem empty_file (decode : codec) :
  decode [] = Some [] ->
  problem_lines (scan (readlines [])) = []
  /\ snd (run decode (File [])) = Finished init [header; final_counts 0 0]
  /\ stdout_text [header; final_counts 0 0]
     = lit "Lines where balance goes negative:" ++ [LF; LF]
       ++ lit "Final counts: braces=0, parens=0" ++ [LF].
Proof.
  intros Hdec. split; [reflexivity|]. split; [|reflexivity].
  unfold run, run_io. cbn [open_read]. rewrite Hdec. reflexivity.
Qed.

Lemma empty_file_witness :
  snd (run utf_8 (File [])) = Finished init [header; final_counts 0 0].
Proof.
  exact (proj1 (proj2 (empty_file utf_8 eq_refl))).
Defined.

(** ** What the cleaning leaves out *)

Lemma scan_char_other (st : state) (c : char) :
  is_delimiter c = false -> scan_char st c = st.
Proof.
  unfold is_delimiter, scan_char. intros H.
  repeat (apply orb_false_elim in H as [H ?]).
  now rewrite H, H0, H1, H2.
Qed.

(** Only the four delimiters matter to the counters. *)
Lemma scan_chars_significant (s : str) (st : state) :
  scan_chars st s = scan_chars st (significant s).
Proof.
  revert st; induction s as [|c s IH]; intros st; [reflexivity|].
  change (scan_chars st (c :: s)) with (scan_chars (scan_char st c) s).
  cbn [significant filter]. destruct (is_delimiter c) eqn:D.
  - rewrite IH. reflexivity.
  - rewrite (scan_char_other _ _ D). apply IH.
Qed.

Lemma forallb_skipn {A : Type} (f : A -> bool) (n : nat) (l : list A) :
  forallb f l = true -> forallb f (skipn n l) = true.
Proof.
  revert l; induction n as [|n IH]; intros [|a l]; simpl; auto.
  intros H. apply andb_prop in H as [_ H]. now apply IH.
Qed.

(** What remains of a text held it already. *)
Lemma sub_forallb (r : Re.regex) (f : char -> bool) (s : str) :
  forallb f s = true -> forallb f (Re.sub r [] s) = true.
Proof.
  unfold Re.sub.
  apply (pieces_induction r (fun s ps =>
    forallb f s = true -> forallb f (flat_map (Re.replace []) ps) = true)).
  - reflexivity.
  - intros c s' _ IH H. simpl in *. apply andb_prop in H as [Hc H].
    now rewrite Hc, IH.
  - intros c s' m _ IH H. simpl in *. apply andb_prop in H as [_ H].
    apply IH. now apply forallb_skipn.
Qed.

Lemma one_line_cons (c : char) (s : str) :
  N.eqb c LF = false -> one_line s = true -> one_line (c :: s) = true.
Proof. intros L H. destruct s; simpl in *; [reflexivity|]. now rewrite L. Qed.

Lemma one_line_tail (c : char) (s : str) :
  one_line (c :: s) = true -> one_line s = true.
Proof.
  destruct s as [|d s]; [reflexivity|]. cbn [one_line].
  intros H. apply andb_prop in H as [_ H]. exact H.
Qed.

Lemma one_line_head (c d : char) (s : str) :
  one_line (c :: d :: s) = true -> N.eqb c LF = false.
Proof.
  cbn [one_line]. intros H. apply andb_prop in H as [H _].
  now apply negb_true_iff in H.
Qed.

Lemma one_line_skipn (n : nat) (s : str) :
  one_line s = true -> one_line (skipn n s) = true.
Proof.
  revert s; induction n as [|n IH]; intros [|c s] H; auto.
  apply IH. now apply one_line_tail in H.
Qed.

Lemma no_newline_cons (c : char) (p : str) :
  no_newline (c :: p) = true -> N.eqb c LF = false /\ no_newline p = true.
Proof.
  unfold no_newline. cbn [forallb]. intros H. apply andb_prop in H as [Hc H].
  now apply negb_true_iff in Hc.
Qed.

Lemma one_line_app (p x : str) :
  no_newline p = true -> one_line x = true -> one_line (p ++ x) = true.
Proof.
  intros Hp Hx. induction p as [|c p IH]; [exact Hx|].
  apply no_newline_cons in Hp as [Hc Hp].
  apply one_line_cons; auto.
Qed.

Lemma no_newline_one_line (s : str) : no_newline s = true -> one_line s = true.
Proof.
  intros H. rewrite <- (app_nil_r s). now apply one_line_app.
Qed.

Lemma one_line_prefix (p : str) (c : char) (x : str) :
  one_line (p ++ c :: x) = true -> no_newline p = true.
Proof.
  induction p as [|a p IH]; intros H; [reflexivity|].
  unfold no_newline. cbn [forallb]. fold (no_newline p).
  rewrite (IH (one_line_tail _ _ H)).
  destruct (p ++ c :: x) as [|d s] eqn:E; [now destruct p|].
  cbn [app] in H. rewrite E in H. now rewrite (one_line_head _ _ _ H).
Qed.

Lemma one_line_suffix (p x : str) :
  one_line (p ++ x) = true -> one_line x = true.
Proof.
  induction p as [|a p IH]; intros H; [exact H|].
  apply IH. exact (one_line_tail _ _ H).
Qed.

(** Every line [readlines] gives has no newline but at its end. *)
Lemma readlines_one_line (text : str) :
  Forall (fun line => one_line line = true) (readlines text).
Proof.
  unfold readlines. induction (universal_newlines text) as [|c s IH]; cbn [split_lines].
  - constructor.
  - destruct (N.eqb c LF) eqn:L; [now constructor|].
    destruct (split_lines s) as [|l ls]; [now repeat constructor|].
    inversion IH as [|? ? Hl Hls]; subst.
    constructor; [now apply one_line_cons | exact Hls].
Qed.

Lemma sub_one_line (r : Re.regex) (s : str) :
  one_line s = true -> one_line (Re.sub r [] s) = true.
Proof.
  unfold Re.sub.
  apply (pieces_induction r (fun s ps =>
    one_line s = true -> one_line (flat_map (Re.replace []) ps) = true)).
  - reflexivity.
  - intros c s' _ IH H. cbn [flat_map Re.replace app].
    destruct s' as [|d s']; [reflexivity|].
    apply one_line_cons; [exact (one_line_head _ _ _ H)|].
    apply IH. exact (one_line_tail _ _ H).
  - intros c s' m _ IH H. cbn [flat_map Re.replace app].
    apply IH, one_line_skipn. exact (one_line_tail _ _ H).
Qed.

(** *** The comment pattern *)

Lemma greedy_to_eol (s : str) :
  Re.greedy_star Re.Dot (Re.match_items [Re.Eol]) s = to_eol s.
Proof.
  set (k := Re.match_items [Re.Eol]).
  assert (Hk : forall s', k s' = if Re.at_end s' then Some 0 else None)
    by reflexivity.
  clearbody k.
  induction s as [|c s IH]; cbn [Re.greedy_star to_eol].
  - now rewrite Hk.
  - cbn [Re.accepts]. destruct (N.eqb c LF) eqn:L; cbn [negb].
    + rewrite Hk. apply N.eqb_eq in L. subst c. now destruct s.
    + rewrite IH, Hk. destruct (to_eol s); [reflexivity|].
      cbn [Re.at_end option_map]. destruct s; [now rewrite L | reflexivity].
Qed.

Lemma match_at_comment (c : char) (s : str) :
  Re.match_at comment_re (c :: s)
  = if N.eqb c SLASH then
      match s with
      | d :: s' =>
          if N.eqb d SLASH then option_map (fun n => S (S n)) (to_eol s')
          else None
      | [] => None
      end
    else None.
Proof.
  unfold Re.match_at, comment_re. cbn [Re.first Re.rest Re.accepts].
  destruct (N.eqb c SLASH); [|reflexivity].
  destruct s as [|d s']; [reflexivity|].
  change (Re.match_items _ (d :: s')) with
    (if N.eqb d SLASH
     then option_map S (Re.greedy_star Re.Dot (Re.match_items [Re.Eol]) s')
     else None).
  destruct (N.eqb d SLASH); [|reflexivity].
  rewrite greedy_to_eol. now destruct (to_eol s').
Qed.

Lemma to_eol_one_line (s : str) :
  one_line s = true ->
  exists n, to_eol s = Some n /\ (skipn n s = [] \/ skipn n s = [LF]).
Proof.
  induction s as [|c s IH]; intros H.
  - exists 0. auto.
  - cbn [to_eol]. destruct (N.eqb c LF) eqn:L.
    + destruct s as [|d s].
      * exists 0. apply N.eqb_eq in L. subst c. auto.
      * apply one_line_head in H. congruence.
    + destruct (IH (one_line_tail _ _ H)) as (n & -> & Hn).
      exists (S n). auto.
Qed.

(** From two slashes on, nothing that counts is left of a line. *)
Lemma strip_comment_slashes (s : str) :
  one_line s = true -> significant (strip_comment (SLASH :: SLASH :: s)) = [].
Proof.
  intros H. destruct (to_eol_one_line s H) as (n & Hn & Hs).
  unfold strip_comment.
  rewrite (sub_removed comment_re [] SLASH (SLASH :: s) (S n))
    by (rewrite match_at_comment; cbn; now rewrite Hn).
  cbn [skipn app]. destruct Hs as [-> | ->]; reflexivity.
Qed.

Lemma strip_comment_kept (c : char) (s : str) :
  Re.match_at comment_re (c :: s) = None ->
  significant (strip_comment (c :: s))
  = (if is_delimiter c then [c] else []) ++ significant (strip_comment s).
Proof.
  intros H. unfold strip_comment. rewrite (sub_kept _ _ _ _ H).
  cbn [significant filter]. now destruct (is_delimiter c).
Qed.

(** What follows two slashes adds nothing that counts. *)
Lemma strip_comment_app (p x : str) :
  no_newline p = true -> one_line x = true ->
  significant (strip_comment (p ++ SLASH :: SLASH :: x))
  = significant (strip_comment p).
Proof.
  intros Hp Hx. induction p as [|c p IH].
  - now apply strip_comment_slashes.
  - apply no_newline_cons in Hp as [_ Hp]. specialize (IH Hp).
    cbn [app]. destruct (N.eqb c SLASH) eqn:C.
    + apply N.eqb_eq in C. subst c. destruct p as [|d p].
      * cbn [app]. rewrite (strip_comment_slashes (SLASH :: x))
          by (now apply one_line_cons). reflexivity.
      * cbn [app] in *. destruct (N.eqb d SLASH) eqn:D.
        -- apply N.eqb_eq in D. subst d.
           apply no_newline_cons in Hp as [_ Hp].
           rewrite strip_comment_slashes
             by (apply one_line_app; [exact Hp | now repeat apply one_line_cons]).
           rewrite strip_comment_slashes by (now apply no_newline_one_line).
           reflexivity.
        -- rewrite (strip_comment_kept SLASH (d :: p ++ SLASH :: SLASH :: x))
             by (rewrite match_at_comment; cbn; now rewrite D).
           rewrite (strip_comment_kept SLASH (d :: p))
             by (rewrite match_at_comment; cbn; now rewrite D).
           now rewrite IH.
    + rewrite (strip_comment_kept c (p ++ SLASH :: SLASH :: x))
        by (rewrite match_at_comment; now rewrite C).
      rewrite (strip_comment_kept c p)
        by (rewrite match_at_comment; now rewrite C).
      now rewrite IH.
Qed.

(** *** The quote pattern *)

Lemma strip_quotes_plain (c : char) (s : str) :
  is_quote c = false -> strip_quotes (c :: s) = c :: strip_quotes s.
Proof.
  intros Q. apply sub_kept. rewrite match_at_quote. now rewrite Q.
Qed.

Lemma strip_quotes_span (q1 q2 : char) (body tail : str) :
  is_quote q1 = true -> forallb plain body = true -> is_quote q2 = true ->
  strip_quotes (q1 :: body ++ q2 :: tail) = strip_quotes tail.
Proof.
  intros Q1 Hb Q2. unfold strip_quotes.
  rewrite (sub_removed quote_re [] q1 (body ++ q2 :: tail) (S (length body))).
  - now rewrite skipn_span.
  - rewrite match_at_quote, Q1, closing_found by assumption. reflexivity.
Qed.

(** The first quote of a text without newline. *)
Lemma first_quote (p : str) :
  no_newline p = true -> quotes p <> 0 ->
  exists body q tail, p = body ++ q :: tail /\ forallb plain body = true
    /\ is_quote q = true /\ quotes p = S (quotes tail)
    /\ no_newline tail = true.
Proof.
  induction p as [|c p IH]; intros Hn Hq; [now elim Hq|].
  apply no_newline_cons in Hn as [Hc Hn].
  unfold quotes in *. cbn [filter] in *. destruct (is_quote c) eqn:Q.
  - exists [], c, p. auto.
  - destruct (IH Hn Hq) as (body & q & tail & -> & Hb & Hq' & Hk & Ht).
    exists (c :: body), q, tail. cbn [forallb]. unfold plain at 1.
    rewrite Q, Hc, Hb. auto.
Qed.

(** Behind an even number of quotes the pairing of the pattern starts
    afresh. *)
Lemma strip_quotes_app (pre x : str) :
  no_newline pre = true -> even_quotes pre = true ->
  strip_quotes (pre ++ x) = strip_quotes pre ++ strip_quotes x.
Proof.
  remember (length pre) as n eqn:Hn. revert pre Hn.
  induction n as [n IH] using (well_founded_induction lt_wf).
  intros [|c p] Hn Hl He; [reflexivity|].
  assert (Hp : no_newline p = true) by (now apply no_newline_cons in Hl).
  destruct (is_quote c) eqn:Q.
  - assert (Hq : quotes p <> 0).
    { unfold even_quotes, quotes in *. cbn [filter] in He. rewrite Q in He.
      intros E. cbn [length] in He. rewrite E in He. discriminate He. }
    destruct (first_quote p Hp Hq) as (body & q & tail & -> & Hb & Hq' & Hk & Ht).
    cbn [app]. rewrite <- app_assoc. cbn [app].
    rewrite !strip_quotes_span by assumption.
    apply (IH (length tail)); auto.
    + subst n. cbn [length]. rewrite length_app. cbn [length]. lia.
    + unfold even_quotes, quotes in *. cbn [filter] in He. rewrite Q in He.
      cbn [length] in He. rewrite Hk in He. exact He.
  - cbn [app]. rewrite !strip_quotes_plain by assumption.
    cbn [app]. f_equal. apply (IH (length p)); auto.
    + subst n. simpl. lia.
    + unfold even_quotes, quotes in *. cbn [filter] in He. now rewrite Q in He.
Qed.

Lemma strip_quotes_no_newline (s : str) :
  no_newline s = true -> no_newline (strip_quotes s) = true.
Proof. apply sub_forallb. Qed.

Lemma no_record (st : state) (i : nat) (line : str) :
  problem_lines (scan_line st (i, line)) = problem_lines st
  <-> negative (scan_chars st (clean_line line)) = false.
Proof.
  destruct (scan_line_spec st i line) as (_ & _ & Hl). rewrite Hl.
  destruct (negative _); split; intros H; try discriminate H.
  - apply (f_equal (@length problem)) in H. rewrite length_app in H.
    simpl in H. lia.
  - reflexivity.
  - apply app_nil_r.
Qed.

(** Two lines with the same cleaned text do the same to the counters, and
    one has a record when the other has. *)
Lemma same_clean_line (st : state) (i : nat) (l1 l2 : str) :
  significant (clean_line l1) = significant (clean_line l2) ->
  brace_count (scan_line st (i, l1)) = brace_count (scan_line st (i, l2))
  /\ paren_count (scan_line st (i, l1)) = paren_count (scan_line st (i, l2))
  /\ (problem_lines (scan_line st (i, l2)) = problem_lines st ->
      problem_lines (scan_line st (i, l1)) = problem_lines st).
Proof.
  intros E.
  assert (Es : scan_chars st (clean_line l1) = scan_chars st (clean_line l2))
    by (rewrite (scan_chars_significant (clean_line l1)),
          (scan_chars_significant (clean_line l2)), E; reflexivity).
  destruct (scan_line_spec st i l1) as (Hb1 & Hp1 & _).
  destruct (scan_line_spec st i l2) as (Hb2 & Hp2 & _).
  rewrite Hb1, Hp1, Hb2, Hp2, Es. repeat split.
  rewrite !no_record, Es. auto.
Qed.

(** C5, as the code has it: in a line of the file, a span between two
    quotes that holds neither a quote of either kind nor a newline, and
    that has an even number of quotes before it, is stripped before the
    count.  The line is cleaned to what it is cleaned to without the span,
    it does to the counters what it does without the span, and it has no
    problem record when it has none without the span. *)
Theorem quoted_text_not_counted (pre body post : str) (q1 q2 : char) :
  one_line (pre ++ q1 :: body ++ q2 :: post) = true ->
  even_quotes pre = true ->
  is_quote q1 = true -> is_quote q2 = true -> forallb plain body = true ->
  clean_line (pre ++ q1 :: body ++ q2 :: post) = clean_line (pre ++ post)
  /\ (forall st i,
      brace_count (scan_line st (i, pre ++ q1 :: body ++ q2 :: post))
        = brace_count (scan_line st (i, pre ++ post))
      /\ paren_count (scan_line st (i, pre ++ q1 :: body ++ q2 :: post))
        = paren_count (scan_line st (i, pre ++ post))
      /\ (problem_lines (scan_line st (i, pre ++ post)) = problem_lines st ->
          problem_lines (scan_line st (i, pre ++ q1 :: body ++ q2 :: post))
          = problem_lines st)).
Proof.
  intros Hl He Q1 Q2 Hb.
  assert (Hn : no_newline pre = true) by exact (one_line_prefix _ _ _ Hl).
  assert (E : clean_line (pre ++ q1 :: body ++ q2 :: post) = clean_line (pre ++ post)).
  { unfold clean_line. f_equal.
    rewrite !strip_quotes_app by assumption.
    now rewrite strip_quotes_span. }
  split; [exact E|]. intros st i. apply same_clean_line. now rewrite E.
Qed.

Lemma quoted_text_not_counted_witness :
  readlines braces_in_quotes = [braces_in_quotes]
  /\ clean_line braces_in_quotes = lit "x = "
  /\ problem_lines (scan (readlines braces_in_quotes)) = [].
Proof.
  destruct (quoted_text_not_counted (lit "x = ") [RBRACE; RBRACE; RBRACE] []
              DQUOTE DQUOTE eq_refl eq_refl eq_refl eq_refl eq_refl)
    as (E & H).
  split; [reflexivity|]. split.
  - exact E.
  - exact (proj2 (proj2 (H init 1)) eq_refl).
Defined.

(** C5, as stated, does not hold: in the line [x = ] followed by a
    string literal in double quotes that holds an apostrophe and a closing
    brace, no brace and no parenthesis is outside the literal, and yet the
    line has a problem record with [brace_count] -1.  The pattern pairs the
    opening quote with the apostrophe and leaves the brace. *)
Lemma apostrophe_in_quotes_counted :
  apostrophe_in_quotes = lit "x = " ++ DQUOTE :: [SQUOTE; RBRACE] ++ [DQUOTE]
  /\ literal_body DQUOTE [SQUOTE; RBRACE] = true
  /\ significant (lit "x = ") = []
  /\ clean_line apostrophe_in_quotes = lit "x = " ++ [RBRACE; DQUOTE]
  /\ problem_lines (scan (readlines apostrophe_in_quotes))
     = [{| line_num := 1; b_count := -1; p_count := 0;
           line_text := apostrophe_in_quotes |}].
Proof.
  repeat split.
Qed.

(** C6, as the code has it: in a line of the file, when the text before
    two slashes has an even number of quotes, the slashes and all that
    follows them on the line add nothing to the counters: the counters
    after the line are those after the cleaned text before the slashes,
    and the line has no problem record when neither of these is negative. *)
Theorem comment_text_not_counted (code comment : str) (st : state) (i : nat) :
  one_line (code ++ SLASH :: SLASH :: comment) = true ->
  even_quotes code = true ->
  brace_count (scan_line st (i, code ++ SLASH :: SLASH :: comment))
    = brace_count (scan_chars st (clean_line code))
  /\ paren_count (scan_line st (i, code ++ SLASH :: SLASH :: comment))
    = paren_count (scan_chars st (clean_line code))
  /\ (negative (scan_chars st (clean_line code)) = false ->
      problem_lines (scan_line st (i, code ++ SLASH :: SLASH :: comment))
      = problem_lines st).
Proof.
  intros Hl He.
  assert (Hn : no_newline code = true) by exact (one_line_prefix _ _ _ Hl).
  assert (Hc : one_line comment = true)
    by exact (one_line_suffix (code ++ [SLASH; SLASH]) comment
                (eq_ind _ (fun l => one_line l = true) Hl _
                   (app_assoc code [SLASH; SLASH] comment))).
  assert (E : significant (clean_line (code ++ SLASH :: SLASH :: comment))
              = significant (clean_line code)).
  { unfold clean_line. rewrite strip_quotes_app by assumption.
    rewrite !strip_quotes_plain by reflexivity.
    apply strip_comment_app.
    - now apply strip_quotes_no_newline.
    - now apply sub_one_line. }
  destruct (same_clean_line st i _ _ E) as (Hb & Hp & Hr).
  destruct (scan_line_spec st i code) as (Hb' & Hp' & _).
  split; [exact (eq_trans Hb Hb')|]. split; [exact (eq_trans Hp Hp')|].
  intros Hneg. apply Hr. now apply no_record.
Qed.

Lemma comment_text_not_counted_witness :
  readlines parens_in_comment = [parens_in_comment]
  /\ paren_count (scan (readlines parens_in_comment)) = 0%Z
  /\ problem_lines (scan (readlines parens_in_comment)) = [].
Proof.
  destruct (comment_text_not_counted (lit "foo(); ") (lit " )))") init 1
              eq_refl eq_refl) as (_ & Hp & Hl).
  split; [reflexivity|]. split.
  - exact Hp.
  - exact (Hl eq_refl).
Defined.

(** C6, as stated, does not hold: in the line whose code is [x = ], an
    apostrophe in double quotes and a semicolon, and whose comment holds an
    apostrophe and a closing parenthesis, the two slashes are outside every
    string literal and the code has no brace and no parenthesis, and yet
    the line ends with [paren_count] -1 and a problem record.  The pattern
    pairs the closing quote of the literal with the apostrophe of the
    comment and removes the slashes between them. *)
Lemma apostrophe_before_comment_counted :
  lexes None apostrophe_code = true
  /\ significant apostrophe_code = []
  /\ clean_line apostrophe_before_comment = lit "x = )"
  /\ paren_count (scan (readlines apostrophe_before_comment)) = (-1)%Z
  /\ problem_lines (scan (readlines apostrophe_before_comment))
     = [{| line_num := 1; b_count := 0; p_count := -1;
           line_text := apostrophe_before_comment |}].
Proof.
  repeat split.
Qed.

(** ** More on the cleaning of a line *)

Lemma quotes_cons (c : char) (s : str) :
  quotes (c :: s) = (if is_quote c then 1 else 0) + quotes s.
Proof. unfold quotes. cbn [filter]. now destruct (is_quote c). Qed.

Lemma closing_no_quotes (s : str) : quotes s = 0 -> closing s = None.
Proof.
  induction s as [|c s IH]; intros H; [reflexivity|].
  rewrite quotes_cons in H. cbn [closing].
  destruct (is_quote c); [discriminate|].
  destruct (N.eqb c LF); [reflexivity|]. now rewrite IH.
Qed.

Lemma strip_quotes_unclosed (c : char) (s : str) :
  is_quote c = true -> closing s = None ->
  strip_quotes (c :: s) = c :: strip_quotes s.
Proof.
  intros Q H. apply sub_kept. rewrite match_at_quote, Q, H. reflexivity.
Qed.

Lemma strip_quotes_none (s : str) : quotes s = 0 -> strip_quotes s = s.
Proof.
  induction s as [|c s IH]; intros H; [reflexivity|].
  rewrite quotes_cons in H. destruct (is_quote c) eqn:Q; [discriminate|].
  rewrite strip_quotes_plain by exact Q. now rewrite IH.
Qed.

(** A single quote has nothing to pair with. *)
Lemma strip_quotes_single (s : str) : quotes s <= 1 -> strip_quotes s = s.
Proof.
  induction s as [|c s IH]; intros H; [reflexivity|].
  rewrite quotes_cons in H. destruct (is_quote c) eqn:Q.
  - assert (H0 : quotes s = 0) by lia.
    rewrite strip_quotes_unclosed by auto using closing_no_quotes.
    now rewrite strip_quotes_none.
  - rewrite strip_quotes_plain by exact Q. now rewrite IH.
Qed.

Lemma has_comment_tail (c : char) (s : str) :
  has_comment (c :: s) = false -> has_comment s = false.
Proof.
  destruct s as [|d s]; [reflexivity|]. cbn [has_comment].
  intros H. now apply orb_false_elim in H as [_ H].
Qed.

Lemma match_at_comment_none (c : char) (s : str) :
  has_comment (c :: s) = false -> Re.match_at comment_re (c :: s) = None.
Proof.
  rewrite match_at_comment. destruct s as [|d s]; [now destruct (N.eqb c SLASH)|].
  cbn [has_comment]. intros H. apply orb_false_elim in H as [H _].
  destruct (N.eqb c SLASH); [|reflexivity].
  destruct (N.eqb d SLASH); [discriminate H | reflexivity].
Qed.

(** Without two slashes side by side there is no comment to remove. *)
Lemma strip_comment_none (s : str) : has_comment s = false -> strip_comment s = s.
Proof.
  induction s as [|c s IH]; intros H; [reflexivity|].
  unfold strip_comment in *.
  rewrite (sub_kept _ _ _ _ (match_at_comment_none _ _ H)).
  now rewrite (IH (has_comment_tail _ _ H)).
Qed.

Lemma eol_cases (s : str) : eol s = [] \/ eol s = [LF].
Proof. unfold eol. destruct (N.eqb _ LF); auto. Qed.

Lemma to_eol_eol (x : str) :
  one_line x = true -> exists n, to_eol x = Some n /\ skipn n x = eol x.
Proof.
  induction x as [|c x IH]; intros H.
  - exists 0. auto.
  - cbn [to_eol]. destruct (N.eqb c LF) eqn:L.
    + destruct x as [|d x].
      * exists 0. apply N.eqb_eq in L. subst c. auto.
      * apply one_line_head in H. congruence.
    + destruct (IH (one_line_tail _ _ H)) as (n & -> & Hn).
      exists (S n). split; [reflexivity|]. cbn [skipn]. rewrite Hn.
      unfold eol. destruct x as [|d x]; [|reflexivity].
      cbn [last]. rewrite L. reflexivity.
Qed.

(** The first two slashes of [p ++ // ++ x] are those written out. *)
Lemma comment_head (c : char) (p u : str) :
  has_comment ((c :: p) ++ [SLASH]) = false ->
  Re.match_at comment_re (c :: p ++ SLASH :: u) = None.
Proof.
  rewrite match_at_comment. destruct p as [|d p]; cbn [app has_comment].
  - intros H. destruct (N.eqb c SLASH); [now vm_compute in H | reflexivity].
  - intros H. apply orb_false_elim in H as [H _].
    destruct (N.eqb c SLASH); [|reflexivity].
    destruct (N.eqb d SLASH); [discriminate H | reflexivity].
Qed.

Lemma strip_comment_cut (p x : str) :
  has_comment (p ++ [SLASH]) = false -> one_line x = true ->
  strip_comment (p ++ SLASH :: SLASH :: x) = p ++ eol x.
Proof.
  intros Hp Hx. induction p as [|c p IH].
  - destruct (to_eol_eol x Hx) as (n & Hn & Hs). unfold strip_comment.
    cbn [app].
    rewrite (sub_removed comment_re [] SLASH (SLASH :: x) (S n))
      by (rewrite match_at_comment; cbn; now rewrite Hn).
    cbn [skipn app]. rewrite Hs. now destruct (eol_cases x) as [-> | ->].
  - cbn [app]. unfold strip_comment in *.
    rewrite (sub_kept _ _ _ _ (comment_head c p _ Hp)).
    f_equal. apply IH. exact (has_comment_tail _ _ Hp).
Qed.

Lemma first_comment (s : str) :
  has_comment s = true ->
  exists p x, s = p ++ SLASH :: SLASH :: x /\ has_comment (p ++ [SLASH]) = false.
Proof.
  induction s as [|c s IH]; [discriminate|].
  destruct s as [|d s]; [discriminate|]. cbn [has_comment].
  destruct (N.eqb c SLASH && N.eqb d SLASH) eqn:E.
  - intros _. apply andb_prop in E as [Ec Ed].
    apply N.eqb_eq in Ec, Ed. subst c d. exists [], s. auto.
  - cbn [orb]. intros H. destruct (IH H) as (p & x & Hs & Hp).
    exists (c :: p), x. rewrite Hs. split; [reflexivity|].
    destruct p as [|e p]; cbn [app has_comment] in *.
    + injection Hs as -> _. now rewrite E.
    + injection Hs as -> _. now rewrite E, Hp.
Qed.

Lemma no_comment_end (p t : str) :
  has_comment (p ++ [SLASH]) = false -> t = [] \/ t = [LF] ->
  has_comment (p ++ t) = false.
Proof.
  intros Hp Ht. induction p as [|c p IH].
  - now destruct Ht as [-> | ->].
  - specialize (IH (has_comment_tail _ _ Hp)).
    destruct p as [|d p]; cbn [app has_comment] in *.
    + destruct Ht as [-> | ->]; [reflexivity|]. cbn. now rewrite andb_false_r.
    + apply orb_false_elim in Hp as [Hp _]. now rewrite Hp, IH.
Qed.

Lemma strip_comment_line_cut (line p x : str) :
  one_line line = true -> line = p ++ SLASH :: SLASH :: x ->
  has_comment (p ++ [SLASH]) = false -> strip_comment line = p ++ eol x.
Proof.
  intros Hl -> Hp. apply strip_comment_cut; [exact Hp|].
  apply (one_line_suffix (p ++ [SLASH; SLASH])). now rewrite <- app_assoc.
Qed.

Lemma strip_comment_no_comment (line : str) :
  one_line line = true -> has_comment (strip_comment line) = false.
Proof.
  intros Hl. destruct (has_comment line) eqn:H.
  - destruct (first_comment line H) as (p & x & Hs & Hp).
    rewrite (strip_comment_line_cut line p x Hl Hs Hp).
    apply no_comment_end; [exact Hp|apply eol_cases].
  - now rewrite strip_comment_none.
Qed.

(** X9: on a line of the file the comment pattern cuts at the first two
    slashes that stand side by side: what is before them stays, the
    newline that ends the line stays, the rest goes; a line without such
    slashes is left as it is, and the result never has such slashes. *)
Theorem comment_cut_at_first_slashes (line : str) :
  one_line line = true ->
  has_comment (strip_comment line) = false
  /\ (has_comment line = false -> strip_comment line = line)
  /\ (forall p x, line = p ++ SLASH :: SLASH :: x ->
      has_comment (p ++ [SLASH]) = false ->
      strip_comment line = p ++ eol x).
Proof.
  intros Hl. split; [now apply strip_comment_no_comment|].
  split; [apply strip_comment_none|].
  intros p x. now apply strip_comment_line_cut.
Qed.

Lemma comment_cut_at_first_slashes_witness :
  strip_comment (lit "a / b // c // d" ++ [LF]) = lit "a / b " ++ [LF].
Proof.
  exact (proj2 (proj2 (comment_cut_at_first_slashes
                         (lit "a / b // c // d" ++ [LF]) eq_refl))
           (lit "a / b ") (lit " c // d" ++ [LF]) eq_refl eq_refl).
Defined.

(** X7: a line with no quote and no two slashes side by side is counted
    as it stands: the cleaning changes nothing. *)
Theorem plain_line_unchanged (line : str) :
  quotes line = 0 -> has_comment line = false -> clean_line line = line.
Proof.
  intros Hq Hc. unfold clean_line.
  rewrite strip_quotes_none by exact Hq. now apply strip_comment_none.
Qed.

Lemma plain_line_unchanged_witness :
  clean_line (lit "if (a / b) { c(); }" ++ [LF]) = lit "if (a / b) { c(); }" ++ [LF].
Proof.
  exact (plain_line_unchanged (lit "if (a / b) { c(); }" ++ [LF]) eq_refl eq_refl).
Defined.

Lemma quotes_app (a b : str) : quotes (a ++ b) = quotes a + quotes b.
Proof. unfold quotes. now rewrite filter_app, length_app. Qed.

Lemma strip_quotes_parity (p : str) :
  no_newline p = true ->
  quotes (strip_quotes p) = if Nat.odd (quotes p) then 1 else 0.
Proof.
  remember (length p) as n eqn:Hn. revert p Hn.
  induction n as [n IH] using (well_founded_induction lt_wf).
  intros [|c p] Hn Hl; [reflexivity|].
  apply no_newline_cons in Hl as [_ Hp].
  destruct (is_quote c) eqn:Q.
  - destruct (Nat.eq_dec (quotes p) 0) as [Hz|Hz].
    + rewrite strip_quotes_unclosed by auto using closing_no_quotes.
      rewrite strip_quotes_none by exact Hz.
      rewrite !quotes_cons, Q, Hz. reflexivity.
    + destruct (first_quote p Hp Hz) as (body & q & tail & -> & Hb & Hq & Hk & Ht).
      rewrite strip_quotes_span by assumption.
      rewrite quotes_cons, Q, Hk.
      rewrite (IH (length tail)); auto.
      subst n. cbn [length]. rewrite length_app. cbn [length]. lia.
  - rewrite strip_quotes_plain by exact Q. rewrite !quotes_cons, Q.
    apply (IH (length p)); auto. subst n. simpl. lia.
Qed.

Lemma strip_quotes_snoc_newline (p : str) :
  no_newline p = true -> strip_quotes (p ++ [LF]) = strip_quotes p ++ [LF].
Proof.
  remember (length p) as n eqn:Hn. revert p Hn.
  induction n as [n IH] using (well_founded_induction lt_wf).
  intros [|c p] Hn Hl; [reflexivity|].
  apply no_newline_cons in Hl as [_ Hp]. cbn [app].
  destruct (is_quote c) eqn:Q.
  - destruct (Nat.eq_dec (quotes p) 0) as [Hz|Hz].
    + assert (Hz' : quotes (p ++ [LF]) = 0) by (rewrite quotes_app, Hz; reflexivity).
      rewrite !strip_quotes_unclosed by auto using closing_no_quotes.
      rewrite !strip_quotes_none by assumption. reflexivity.
    + destruct (first_quote p Hp Hz) as (body & q & tail & -> & Hb & Hq & Hk & Ht).
      rewrite <- app_assoc. cbn [app].
      rewrite !strip_quotes_span by assumption.
      apply (IH (length tail)); auto.
      subst n. cbn [length]. rewrite length_app. cbn [length]. lia.
  - rewrite !strip_quotes_plain by exact Q. cbn [app]. f_equal.
    apply (IH (length p)); auto. subst n. simpl. lia.
Qed.

Lemma one_line_cases (s : str) :
  one_line s = true ->
  no_newline s = true \/ exists p, s = p ++ [LF] /\ no_newline p = true.
Proof.
  induction s as [|c s IH]; intros H; [now left|].
  destruct s as [|d s].
  - destruct (N.eqb c LF) eqn:L.
    + right. exists []. apply N.eqb_eq in L. now subst c.
    + left. unfold no_newline. cbn. now rewrite L.
  - pose proof (one_line_head _ _ _ H) as L.
    destruct (IH (one_line_tail _ _ H)) as [Hn | (p & Hs & Hn)].
    + left. unfold no_newline in *. cbn [forallb] in *. now rewrite L, Hn.
    + right. exists (c :: p). rewrite Hs. split; [reflexivity|].
      unfold no_newline in *. cbn [forallb]. now rewrite L, Hn.
Qed.

Lemma strip_quotes_line_parity (line : str) :
  one_line line = true ->
  quotes (strip_quotes line) = if Nat.odd (quotes line) then 1 else 0.
Proof.
  intros H. destruct (one_line_cases line H) as [Hn | (p & -> & Hn)].
  - now apply strip_quotes_parity.
  - rewrite strip_quotes_snoc_newline by exact Hn.
    rewrite !quotes_app, !Nat.add_0_r. now apply strip_quotes_parity.
Qed.

(** X8: on a line of the file the quote pattern pairs the quotes off two
    by two, whatever their kinds: no quote is left of a line with an even
    number of quotes, and exactly one of a line with an odd number. *)
Theorem at_most_one_quote_left (line : str) :
  one_line line = true ->
  quotes (strip_quotes line) = (if Nat.odd (quotes line) then 1 else 0)
  /\ quotes (strip_quotes line) <= 1.
Proof.
  intros H. rewrite (strip_quotes_line_parity line H).
  split; [reflexivity|]. destruct (Nat.odd _); lia.
Qed.

Lemma at_most_one_quote_left_witness :
  quotes (strip_quotes (lit "a 'b' c 'd" ++ [LF])) = 1.
Proof.
  exact (proj1 (at_most_one_quote_left (lit "a 'b' c 'd" ++ [LF]) eq_refl)).
Defined.

Lemma filter_skipn_length {A : Type} (f : A -> bool) (n : nat) (l : list A) :
  length (filter f (skipn n l)) <= length (filter f l).
Proof.
  revert l; induction n as [|n IH]; intros [|a l]; cbn [skipn filter]; auto.
  specialize (IH l). destruct (f a); simpl; lia.
Qed.

(** A substitution by nothing only takes characters away. *)
Lemma sub_filter_length (r : Re.regex) (f : char -> bool) (s : str) :
  length (filter f (Re.sub r [] s)) <= length (filter f s).
Proof.
  unfold Re.sub.
  apply (pieces_induction r (fun s ps =>
    length (filter f (flat_map (Re.replace []) ps)) <= length (filter f s))).
  - auto.
  - intros c s' _ IH. cbn [flat_map Re.replace app filter].
    destruct (f c); simpl; lia.
  - intros c s' m _ IH. cbn [flat_map Re.replace app filter].
    pose proof (filter_skipn_length f m s'). destruct (f c); simpl; lia.
Qed.

Lemma clean_line_fixed (line : str) :
  one_line line = true -> clean_line (clean_line line) = clean_line line.
Proof.
  intros H.
  assert (Hq : quotes (clean_line line) <= 1).
  { unfold clean_line, strip_comment, quotes.
    etransitivity; [apply sub_filter_length|].
    fold (quotes (strip_quotes line)).
    rewrite (strip_quotes_line_parity line H). destruct (Nat.odd _); lia. }
  assert (Hc : has_comment (clean_line line) = false)
    by (apply strip_comment_no_comment; now apply sub_one_line).
  unfold clean_line at 1. rewrite (strip_quotes_single _ Hq).
  now apply strip_comment_none.
Qed.

(** X10: cleaning a line of the file twice is cleaning it once: the first
    pass leaves nothing for a second one to remove. *)
Theorem clean_line_idempotent (line : str) :
  one_line line = true ->
  clean_line (clean_line line) = clean_line line
  /\ quotes (clean_line line) <= 1
  /\ has_comment (clean_line line) = false.
Proof.
  intros H. split; [now apply clean_line_fixed|]. split.
  - unfold clean_line, strip_comment, quotes.
    etransitivity; [apply sub_filter_length|].
    fold (quotes (strip_quotes line)).
    rewrite (strip_quotes_line_parity line H). destruct (Nat.odd _); lia.
  - apply strip_comment_no_comment. now apply sub_one_line.
Qed.

Lemma clean_line_idempotent_witness :
  clean_line (clean_line (lit "f('a', b) // it's" ++ [LF]))
  = clean_line (lit "f('a', b) // it's" ++ [LF]).
Proof.
  exact (proj1 (clean_line_idempotent (lit "f('a', b) // it's" ++ [LF]) eq_refl)).
Defined.

(** ** More on the counters and the records *)

Lemma occurrences_nonneg (c : char) (s : str) : (0 <= occurrences c s)%Z.
Proof.
  induction s as [|d s IH]; cbn [occurrences]; [lia|].
  destruct (N.eqb d c); lia.
Qed.

Lemma occurrences_skipn (c : char) (n : nat) (s : str) :
  (occurrences c (skipn n s) <= occurrences c s)%Z.
Proof.
  revert s; induction n as [|n IH]; intros [|d s]; cbn [skipn occurrences]; try lia.
  specialize (IH s). destruct (N.eqb d c); lia.
Qed.

Lemma sub_occurrences (r : Re.regex) (c : char) (s : str) :
  (occurrences c (Re.sub r [] s) <= occurrences c s)%Z.
Proof.
  unfold Re.sub.
  apply (pieces_induction r (fun s ps =>
    (occurrences c (flat_map (Re.replace []) ps) <= occurrences c s)%Z)).
  - simpl. lia.
  - intros d s' _ IH. cbn [flat_map Re.replace app occurrences]. lia.
  - intros d s' m _ IH. cbn [flat_map Re.replace app occurrences].
    pose proof (occurrences_skipn c m s'). destruct (N.eqb d c); lia.
Qed.

Lemma clean_occurrences (c : char) (line : str) :
  (0 <= occurrences c (clean_line line) <= occurrences c line)%Z.
Proof.
  split; [apply occurrences_nonneg|]. unfold clean_line, strip_comment, strip_quotes.
  etransitivity; apply sub_occurrences.
Qed.

Lemma total_clean (c : char) (lines : list str) :
  (0 <= total c (map clean_line lines) <= total c lines)%Z.
Proof.
  induction lines as [|l ls IH]; cbn [map total fold_right]; [lia|].
  fold (total c (map clean_line ls)) (total c ls).
  pose proof (clean_occurrences c l). lia.
Qed.

Lemma total_app (c : char) (l1 l2 : list str) :
  total c (l1 ++ l2) = (total c l1 + total c l2)%Z.
Proof.
  induction l1 as [|l ls IH]; [reflexivity|].
  cbn [app total fold_right].
  fold (total c (ls ++ l2)) (total c ls) (total c l2). lia.
Qed.

Lemma total_firstn (c : char) (k : nat) (lines : list str) :
  (total c (firstn k lines) <= total c lines)%Z.
Proof.
  rewrite <- (firstn_skipn k lines) at 2. rewrite total_app.
  pose proof (total_clean c (skipn k lines)). lia.
Qed.

Lemma scan_bounds (lines : list str) :
  (- total RBRACE lines <= brace_count (scan lines) <= total LBRACE lines)%Z
  /\ (- total RPAREN lines <= paren_count (scan lines) <= total LPAREN lines)%Z.
Proof.
  destruct (scan_counts lines) as (-> & ->).
  pose proof (total_clean LBRACE lines). pose proof (total_clean RBRACE lines).
  pose proof (total_clean LPAREN lines). pose proof (total_clean RPAREN lines).
  lia.
Qed.

(** X14: the cleaning only takes characters away, so a counter is never
    above the number of opening characters of its kind in the raw file and
    never below minus the number of closing ones. *)
Theorem counters_within_raw_totals (lines : list str) :
  (- total RBRACE lines <= brace_count (scan lines) <= total LBRACE lines)%Z
  /\ (- total RPAREN lines <= paren_count (scan lines) <= total LPAREN lines)%Z
  /\ (forall c line,
      (0 <= occurrences c (clean_line line) <= occurrences c line)%Z).
Proof.
  destruct (scan_bounds lines) as (Hb & Hp).
  split; [exact Hb|]. split; [exact Hp|]. intros c line. apply clean_occurrences.
Qed.

Lemma flat_map_nil {A B : Type} (f : A -> list B) (l : list A) :
  (forall a, In a l -> f a = []) -> flat_map f l = [].
Proof.
  induction l as [|a l IH]; intros H; [reflexivity|].
  cbn [flat_map]. rewrite (H a) by now left.
  apply IH. intros b Hb. apply H. now right.
Qed.

(** X6: a file with no closing brace and no closing parenthesis anywhere
    in its raw text has no problem record, and both counters end at zero
    or above. *)
Theorem no_closers_no_records (lines : list str) :
  total RBRACE lines = 0%Z -> total RPAREN lines = 0%Z ->
  problem_lines (scan lines) = []
  /\ (0 <= brace_count (scan lines))%Z /\ (0 <= paren_count (scan lines))%Z.
Proof.
  intros Hb Hp. split.
  - rewrite problems_all. apply flat_map_nil. intros k _. unfold record_at.
    destruct (scan_bounds (firstn k lines)) as ([Hb1 _] & [Hp1 _]).
    pose proof (total_firstn RBRACE k lines).
    pose proof (total_firstn RPAREN k lines).
    unfold negative.
    replace (brace_count (scan (firstn k lines)) <? 0)%Z with false
      by (symmetry; apply Z.ltb_ge; lia).
    replace (paren_count (scan (firstn k lines)) <? 0)%Z with false
      by (symmetry; apply Z.ltb_ge; lia).
    reflexivity.
  - destruct (scan_bounds lines) as ([Hb1 _] & [Hp1 _]). lia.
Qed.

Lemma no_closers_no_records_witness :
  problem_lines (scan [lit "f(a, {"; lit "  g(("]) = [].
Proof.
  exact (proj1 (no_closers_no_records [lit "f(a, {"; lit "  g(("]
                  eq_refl eq_refl)).
Defined.

(** X3: every stored record is the snapshot of its line: its line number
    is a line of the file, its counts are the counters after that line,
    one of them is negative, and its text is that line without the white
    space around it. *)
Theorem records_are_snapshots (lines : list str) :
  Forall (fun p =>
    1 <= line_num p <= length lines
    /\ b_count p = brace_count (scan (firstn (line_num p) lines))
    /\ p_count p = paren_count (scan (firstn (line_num p) lines))
    /\ line_text p = strip (nth (line_num p - 1) lines [])
    /\ ((b_count p < 0)%Z \/ (p_count p < 0)%Z))
  (problem_lines (scan lines)).
Proof.
  rewrite problems_all. apply Forall_forall. intros p Hin.
  apply in_flat_map in Hin as (k & Hk & Hp). apply in_seq in Hk.
  unfold record_at in Hp.
  destruct (negative (scan (firstn k lines))) eqn:N; [|contradiction].
  destruct Hp as [<-|[]]. cbn [line_num b_count p_count line_text].
  repeat split; try lia.
  unfold negative in N. apply orb_prop in N as [N|N]; apply Z.ltb_lt in N; auto.
Qed.

Lemma enumerate_app {A : Type} (l1 l2 : list A) (i : nat) :
  enumerate i (l1 ++ l2) = enumerate i l1 ++ enumerate (i + length l1) l2.
Proof.
  revert i; induction l1 as [|a l1 IH]; intros i.
  - cbn [app length]. rewrite Nat.add_0_r. reflexivity.
  - change (enumerate i ((a :: l1) ++ l2)) with ((i, a) :: enumerate (S i) (l1 ++ l2)).
    rewrite IH. cbn [length]. rewrite Nat.add_succ_r. reflexivity.
Qed.

Lemma scan_from_app (st : state) (i : nat) (l1 l2 : list str) :
  scan_from st i (l1 ++ l2)
  = scan_from (scan_from st i l1) (i + length l1) l2.
Proof. unfold scan_from. now rewrite enumerate_app, fold_left_app. Qed.

(** X4: lines added at the end of a file change nothing of what the file
    gave before: the scan goes on from the state the file ended in, the
    counters of the two parts add up, the records of the file stay where
    they were and the new ones bear the numbers of the new lines. *)
Theorem appended_lines (l1 l2 : list str) :
  scan (l1 ++ l2) = scan_from (scan l1) (S (length l1)) l2
  /\ brace_count (scan (l1 ++ l2))
     = (brace_count (scan l1) + brace_count (scan l2))%Z
  /\ paren_count (scan (l1 ++ l2))
     = (paren_count (scan l1) + paren_count (scan l2))%Z
  /\ exists new,
       problem_lines (scan (l1 ++ l2)) = problem_lines (scan l1) ++ new
       /\ Forall (fun p => length l1 < line_num p <= length (l1 ++ l2)) new.
Proof.
  assert (E : scan (l1 ++ l2) = scan_from (scan l1) (S (length l1)) l2)
    by (unfold scan; now rewrite scan_from_app).
  split; [exact E|].
  destruct (scan_counts (l1 ++ l2)) as (Hb & Hp).
  destruct (scan_counts l1) as (Hb1 & Hp1).
  destruct (scan_counts l2) as (Hb2 & Hp2).
  rewrite map_app, !total_app in Hb, Hp.
  split; [lia|]. split; [lia|].
  destruct (scan_from_problems l2 (scan l1) (S (length l1))) as (new & Hn & _ & Hf).
  exists new. rewrite E. split; [exact Hn|].
  eapply Forall_impl; [|exact Hf]. cbn beta. intros p. rewrite length_app. lia.
Qed.

(** X5: a line is judged by the counters at its end only.  A line whose
    cleaned text has as many opening as closing braces, and as many
    opening as closing parentheses, in whatever order, leaves the counters
    as they were, and has a record exactly when a counter was negative
    before it. *)
Theorem line_judged_at_its_end (st : state) (i : nat) (line : str) :
  occurrences LBRACE (clean_line line) = occurrences RBRACE (clean_line line) ->
  occurrences LPAREN (clean_line line) = occurrences RPAREN (clean_line line) ->
  brace_count (scan_line st (i, line)) = brace_count st
  /\ paren_count (scan_line st (i, line)) = paren_count st
  /\ (problem_lines (scan_line st (i, line)) = problem_lines st
      <-> negative st = false).
Proof.
  intros Hb Hp.
  destruct (scan_line_spec st i line) as (Hb1 & Hp1 & _).
  destruct (scan_chars_counts (clean_line line) st) as (Hb2 & Hp2 & _).
  assert (Eb : brace_count (scan_chars st (clean_line line)) = brace_count st) by lia.
  assert (Ep : paren_count (scan_chars st (clean_line line)) = paren_count st) by lia.
  split; [exact (eq_trans Hb1 Eb)|]. split; [exact (eq_trans Hp1 Ep)|].
  rewrite no_record. unfold negative. rewrite Eb, Ep. reflexivity.
Qed.

Lemma line_judged_at_its_end_witness :
  clean_line (lit "} else {") = lit "} else {"
  /\ problem_lines (scan_line init (1, lit "} else {")) = [].
Proof.
  split; [reflexivity|].
  exact (proj2 (proj2 (proj2 (line_judged_at_its_end init 1 (lit "} else {")
                                eq_refl eq_refl))) eq_refl).
Defined.

(** ** Reading lines *)

Lemma split_lines_concat (s : str) : concat (split_lines s) = s.
Proof.
  induction s as [|c s IH]; [reflexivity|]. cbn [split_lines].
  destruct (N.eqb c LF); [cbn; now rewrite IH|].
  destruct (split_lines s) as [|l ls]; cbn in *; now rewrite <- IH.
Qed.

Lemma split_lines_nonempty (s : str) : Forall (fun l => l <> []) (split_lines s).
Proof.
  induction s as [|c s IH]; [constructor|]. cbn [split_lines].
  destruct (N.eqb c LF); [constructor; [discriminate | exact IH]|].
  destruct (split_lines s) as [|l ls]; [repeat constructor; discriminate|].
  inversion IH; subst. constructor; [discriminate | assumption].
Qed.

Lemma eol_cons (c : char) (l : str) : eol l = [LF] -> eol (c :: l) = [LF].
Proof. destruct l as [|d l]; [discriminate|]. auto. Qed.

Lemma split_lines_ends (s : str) (ls : list str) (l : str) :
  split_lines s = ls ++ [l] -> Forall (fun x => eol x = [LF]) ls.
Proof.
  revert ls l; induction s as [|c s IH]; intros ls l; cbn [split_lines].
  - now destruct ls.
  - destruct (N.eqb c LF) eqn:L.
    + apply N.eqb_eq in L. subst c. destruct ls as [|x ls]; [constructor|].
      cbn [app]. intros [= <- H]. constructor; [reflexivity | exact (IH _ _ H)].
    + destruct (split_lines s) as [|l0 ls0].
      * destruct ls as [|x ls]; [constructor|].
        cbn [app]. intros [= _ H]. now destruct ls.
      * destruct ls as [|x ls]; [constructor|].
        cbn [app]. intros [= <- H].
        assert (F : Forall (fun x => eol x = [LF]) (l0 :: ls))
          by (apply (IH (l0 :: ls) l); cbn [app]; now rewrite H).
        inversion F; subst. constructor; [now apply eol_cons | assumption].
Qed.

(** X1: [readlines] cuts the text after each newline and loses nothing:
    the lines put together are the text (with its line ends as
    newlines), no line is empty, a newline is only the last character of a
    line, and every line but the last ends with one. *)
Theorem readlines_partition (text : str) :
  concat (readlines text) = universal_newlines text
  /\ Forall (fun line => line <> [] /\ one_line line = true) (readlines text)
  /\ (forall ls l, readlines text = ls ++ [l] ->
      Forall (fun line => eol line = [LF]) ls).
Proof.
  split; [apply split_lines_concat|]. split.
  - pose proof (split_lines_nonempty (universal_newlines text)) as H1.
    pose proof (readlines_one_line text) as H2.
    unfold readlines in *. rewrite Forall_forall in *. auto.
  - intros ls l. apply split_lines_ends.
Qed.

Lemma universal_newlines_no_cr (s : str) : ~ In CR (universal_newlines s).
Proof.
  remember (length s) as n eqn:Hn. revert s Hn.
  induction n as [n IH] using (well_founded_induction lt_wf).
  intros [|c s] Hn; [intros []|]. cbn [universal_newlines].
  destruct (N.eqb c CR) eqn:C.
  - destruct s as [|d s]; [intros [H|[]]; discriminate H|].
    destruct (N.eqb d LF).
    + intros [H|H]; [discriminate H|].
      apply (IH (length s)) in H; auto. subst n. simpl. lia.
    + intros [H|H]; [discriminate H|].
      apply (IH (length (d :: s))) in H; auto. subst n. simpl. lia.
  - intros [H|H].
    + subst c. discriminate C.
    + apply (IH (length s)) in H; auto. subst n. simpl. lia.
Qed.

Lemma universal_newlines_id (s : str) : ~ In CR s -> universal_newlines s = s.
Proof.
  induction s as [|c s IH]; intros H; [reflexivity|]. cbn [universal_newlines].
  destruct (N.eqb_spec c CR) as [->|_]; [elim H; now left|].
  rewrite IH; [reflexivity|]. intros H'. apply H. now right.
Qed.

Lemma universal_newlines_crlf (t : str) :
  ~ In CR t -> universal_newlines (with_line_end [CR; LF] t) = t.
Proof.
  induction t as [|c t IH]; intros H; [reflexivity|].
  assert (Ht : ~ In CR t) by (intros H'; apply H; now right).
  unfold with_line_end in *. cbn [flat_map].
  destruct (N.eqb_spec c LF) as [->|Hc].
  - cbn [app universal_newlines]. cbn. now rewrite (IH Ht).
  - cbn [app universal_newlines].
    destruct (N.eqb_spec c CR) as [->|_]; [elim H; now left|].
    now rewrite (IH Ht).
Qed.

Lemma with_cr_head (t : str) (d : char) (r : str) :
  with_line_end [CR] t = d :: r -> N.eqb d LF = false.
Proof.
  destruct t as [|c t]; [discriminate|]. unfold with_line_end. cbn [flat_map].
  destruct (N.eqb_spec c LF) as [->|Hc]; cbn [app]; intros [= <- _].
  - reflexivity.
  - now apply N.eqb_neq.
Qed.

Lemma universal_newlines_cr (t : str) :
  ~ In CR t -> universal_newlines (with_line_end [CR] t) = t.
Proof.
  induction t as [|c t IH]; intros H; [reflexivity|].
  assert (Ht : ~ In CR t) by (intros H'; apply H; now right).
  specialize (IH Ht).
  change (with_line_end [CR] (c :: t))
    with ((if N.eqb c LF then [CR] else [c]) ++ with_line_end [CR] t).
  destruct (N.eqb_spec c LF) as [->|Hc]; cbn [app universal_newlines].
  - cbn [N.eqb CR Pos.eqb].
    destruct (with_line_end [CR] t) as [|d r] eqn:E.
    + now rewrite <- IH.
    + rewrite (with_cr_head t d r E). now rewrite IH.
  - destruct (N.eqb_spec c CR) as [->|_]; [elim H; now left|].
    now rewrite IH.
Qed.

(** X2: in text mode every line end is read as a newline, whether it is
    written as a newline, as a carriage return and a newline, or as a
    carriage return alone: a text gives the same lines with each of the
    three; no line holds a carriage return, and a text without carriage
    returns is read as it is. *)
Theorem no_carriage_return (text : str) :
  Forall (fun line => ~ In CR line) (readlines text)
  /\ (~ In CR text ->
      concat (readlines text) = text
      /\ readlines (with_line_end [CR; LF] text) = readlines text
      /\ readlines (with_line_end [CR] text) = readlines text).
Proof.
  split.
  - apply Forall_forall. intros line Hl Hc.
    apply (universal_newlines_no_cr text).
    rewrite <- (split_lines_concat (universal_newlines text)).
    apply in_concat. exists line. auto.
  - intros H. unfold readlines.
    rewrite universal_newlines_crlf, universal_newlines_cr by exact H.
    rewrite split_lines_concat, (universal_newlines_id text H). auto.
Qed.

(** ** The text of a record *)

Lemma lstrip_split (s : str) :
  exists a, s = a ++ lstrip s /\ forallb isspace a = true.
Proof.
  induction s as [|c s (a & Hs & Ha)]; [now exists []|]. cbn [lstrip].
  destruct (isspace c) eqn:W.
  - exists (c :: a). cbn [app forallb]. now rewrite W, Ha, <- Hs.
  - now exists [].
Qed.

Lemma lstrip_head (s : str) (c : char) (rest : str) :
  lstrip s = c :: rest -> isspace c = false.
Proof.
  induction s as [|d s IH]; [discriminate|]. cbn [lstrip].
  destruct (isspace d) eqn:W; [exact IH|]. now intros [= <- _].
Qed.

Lemma lstrip_fixed (c : char) (s : str) :
  isspace c = false -> lstrip (c :: s) = c :: s.
Proof. intros W. cbn [lstrip]. now rewrite W. Qed.

Lemma forallb_rev {A : Type} (f : A -> bool) (l : list A) :
  forallb f l = true -> forallb f (rev l) = true.
Proof.
  rewrite !forallb_forall. intros H x Hx. apply H. now apply in_rev.
Qed.

Lemma rstrip_split (t : str) :
  exists b, t = rstrip t ++ b /\ forallb isspace b = true.
Proof.
  destruct (lstrip_split (rev t)) as (a & Hs & Ha).
  exists (rev a). split; [|now apply forallb_rev].
  unfold rstrip. rewrite <- rev_app_distr, <- Hs. now rewrite rev_involutive.
Qed.

Lemma rstrip_last (t front : str) (c : char) :
  rstrip t = front ++ [c] -> isspace c = false.
Proof.
  unfold rstrip. intros H. apply (f_equal (@rev char)) in H.
  rewrite rev_involutive, rev_app_distr in H. exact (lstrip_head _ _ _ H).
Qed.

Lemma strip_head (s : str) (c : char) (rest : str) :
  strip s = c :: rest -> isspace c = false.
Proof.
  unfold strip. intros H.
  destruct (rstrip_split (lstrip s)) as (b & Hs & _).
  rewrite H in Hs. exact (lstrip_head _ _ _ Hs).
Qed.

Lemma strip_fixed (s : str) : strip (strip s) = strip s.
Proof.
  destruct (strip s) as [|c u] eqn:E; [reflexivity|].
  unfold strip at 1. rewrite (lstrip_fixed c u (strip_head _ _ _ E)).
  unfold rstrip.
  destruct (rev (c :: u)) as [|d v] eqn:R.
  - apply (f_equal (@rev char)) in R. rewrite rev_involutive in R. discriminate R.
  - assert (W : isspace d = false).
    { apply (rstrip_last (lstrip s) (rev v) d). fold (strip s). rewrite E.
      apply (f_equal (@rev char)) in R. now rewrite rev_involutive in R. }
    rewrite (lstrip_fixed d v W), <- R. apply rev_involutive.
Qed.

(** X11: the text kept in a record is the line without the white space
    around it: the line is white space, the text, white space; the text
    neither starts nor ends with white space; and stripping it again
    changes nothing. *)
Theorem strip_spec (line : str) :
  (exists a b, line = a ++ strip line ++ b
     /\ forallb isspace a = true /\ forallb isspace b = true)
  /\ (forall c rest, strip line = c :: rest -> isspace c = false)
  /\ (forall front c, strip line = front ++ [c] -> isspace c = false)
  /\ strip (strip line) = strip line.
Proof.
  split; [|split; [|split]].
  - destruct (lstrip_split line) as (a & Hs & Ha).
    destruct (rstrip_split (lstrip line)) as (b & Ht & Hb).
    exists a, b. unfold strip. rewrite <- Ht. auto.
  - intros c rest. apply strip_head.
  - intros front c. apply rstrip_last.
  - apply strip_fixed.
Qed.

(** ** The printed report *)

Lemma last_app_single {A : Type} (l : list A) (x d : A) : last (l ++ [x]) d = x.
Proof.
  induction l as [|a l IH]; [reflexivity|].
  cbn [app]. destruct (l ++ [x]) eqn:E; [now destruct l|]. exact IH.
Qed.

(** X12: the report has a bounded size whatever the file: the header
    first, two lines for each of the first ten records at most, the final
    counts last, so never more than 22 printed strings. *)
Theorem report_shape (st : state) :
  length (report st) = 2 + 2 * Nat.min 10 (length (problem_lines st))
  /\ length (report st) <= 22
  /\ hd [] (report st) = header
  /\ last (report st) [] = final_counts (brace_count st) (paren_count st).
Proof.
  assert (H : length (report st) = 2 + 2 * Nat.min 10 (length (problem_lines st)))
    by (rewrite report_length; unfold printed; now rewrite length_firstn).
  split; [exact H|]. split; [lia|]. split; [reflexivity|].
  unfold report.
  change (header :: ?l ++ ?x) with ((header :: l) ++ x).
  apply last_app_single.
Qed.

Lemma ord_injective (a b : ascii) : ord a = ord b -> a = b.
Proof.
  unfold ord. intros H.
  rewrite <- (ascii_N_embedding a), <- (ascii_N_embedding b). now rewrite H.
Qed.

Lemma lit_injective (s t : string) : lit s = lit t -> s = t.
Proof.
  unfold lit. intros H.
  rewrite <- (string_of_list_ascii_of_string s), <- (string_of_list_ascii_of_string t).
  f_equal. revert H.
  generalize (list_ascii_of_string s) (list_ascii_of_string t).
  induction l as [|a l IH]; intros [|b l']; cbn [map]; try discriminate; auto.
  intros [= Hab H]. f_equal; [now apply ord_injective | now apply IH].
Qed.

Lemma str_of_Z_inj (a b : Z) : str_of_Z a = str_of_Z b -> a = b.
Proof.
  unfold str_of_Z. intros H. apply lit_injective in H.
  assert (E : Some (Z.to_int a) = Some (Z.to_int b))
    by (rewrite <- !NilEmpty.isi; now rewrite H).
  injection E as E.
  rewrite <- (DecimalZ.of_to a), <- (DecimalZ.of_to b). now rewrite E.
Qed.

(** X13: a count is printed as its decimal numeral, and two different
    counts are never printed alike: what is printed tells the count. *)
Theorem str_of_Z_injective (a b : Z) :
  (str_of_Z a = str_of_Z b <-> a = b)
  /\ NilEmpty.int_of_string (string_of_list_ascii (map ascii_of_N (str_of_Z a)))
     = Some (Z.to_int a)
  /\ Z.of_int (Z.to_int a) = a.
Proof.
  split; [split; [apply str_of_Z_inj | now intros ->]|].
  split; [|apply DecimalZ.of_to].
  unfold str_of_Z, lit. rewrite map_map.
  rewrite (map_ext _ (fun x => x)) by (intros x; apply ascii_N_embedding).
  rewrite map_id, string_of_list_ascii_of_string. apply NilEmpty.isi.
Qed.

(** X15: a line has a problem record exactly when a counter is negative
    after it: no such line is left out, and no other line has one. *)
Theorem record_iff_negative (lines : list str) (k : nat) :
  (exists p, In p (problem_lines (scan lines)) /\ line_num p = k)
  <-> (1 <= k <= length lines /\ negative (scan (firstn k lines)) = true).
Proof.
  rewrite problems_all. split.
  - intros (p & Hin & Hk). apply in_flat_map in Hin as (j & Hj & Hp).
    apply in_seq in Hj. unfold record_at in Hp.
    destruct (negative (scan (firstn j lines))) eqn:N; [|contradiction].
    destruct Hp as [<-|[]]. cbn [line_num] in Hk. subst j. split; [lia | exact N].
  - intros (Hk & N). eexists. split.
    + apply in_flat_map. exists k. split; [apply in_seq; lia|].
      unfold record_at. rewrite N. now left.
    + reflexivity.
Qed.

(** ** The run *)

Lemma print_all_ok (has : charset) (l : list str) :
  forallb (printable has) l = true -> print_all has l = (l, true).
Proof.
  induction l as [|s l IH]; [reflexivity|]. cbn [forallb print_all].
  intros H. apply andb_prop in H as [Hs Hl]. now rewrite Hs, (IH Hl).
Qed.

Lemma run_io_outcome (decode : codec) (has : charset) (n : node) :
  snd (run_io decode has n)
  = match open_read n with
    | inl e => Raised (OS e) []
    | inr data =>
        match decode data with
        | None => Raised UnicodeDecodeError []
        | Some text =>
            match print_all has (report (scan (readlines text))) with
            | (out, true) => Finished (scan (readlines text)) out
            | (out, false) => Raised UnicodeEncodeError out
            end
        end
    end.
Proof.
  unfold run_io. destruct (open_read n) as [e|data]; [reflexivity|].
  destruct (decode data) as [text|]; [|reflexivity].
  now destruct (print_all has (report (scan (readlines text)))) as [out [|]].
Qed.


Lemma run_io_finished (decode : codec) (has : charset) (data : list byte)
    (text : str) :
  decode data = Some text ->
  forallb (printable has) (report (scan (readlines text))) = true ->
  snd (run_io decode has (File data))
  = Finished (scan (readlines text)) (report (scan (readlines text))).
Proof.
  intros Hd Hp. rewrite run_io_outcome. cbn [open_read].
  now rewrite Hd, (print_all_ok has _ Hp).
Qed.




(** *** What can be printed *)

Lemma ascii_capable_spec (has : charset) (c : char) :
  ascii_capable has = true -> (c < 128)%N -> has c = true.
Proof.
  unfold ascii_capable. rewrite forallb_forall. intros H Hc. apply H.
  rewrite <- (N2Nat.id c). apply in_map, in_seq. lia.
Qed.

Lemma ascii_has (has : charset) (s : str) :
  ascii_capable has = true -> forallb ascii_chars s = true ->
  forallb has s = true.
Proof.
  intros Ha. rewrite !forallb_forall. intros H c Hc.
  apply (ascii_capable_spec has c Ha). apply N.ltb_lt. exact (H c Hc).
Qed.

Lemma uint_ascii (d : Decimal.uint) :
  forallb ascii_chars (lit (NilEmpty.string_of_uint d)) = true.
Proof. induction d; cbn [NilEmpty.string_of_uint]; auto. Qed.

Lemma str_of_Z_ascii (z : Z) : forallb ascii_chars (str_of_Z z) = true.
Proof.
  unfold str_of_Z. destruct (Z.to_int z) as [d|d]; cbn [NilEmpty.string_of_int].
  - apply uint_ascii.
  - exact (uint_ascii d).
Qed.

Lemma forallb_firstn {A : Type} (f : A -> bool) (n : nat) (l : list A) :
  forallb f l = true -> forallb f (firstn n l) = true.
Proof.
  rewrite !forallb_forall. intros H x Hx. apply H.
  rewrite <- (firstn_skipn n l). apply in_or_app. now left.
Qed.

Lemma strip_forallb (f : char -> bool) (s : str) :
  forallb f s = true -> forallb f (strip s) = true.
Proof.
  destruct (lstrip_split s) as (a & Hs & _).
  destruct (rstrip_split (lstrip s)) as (b & Ht & _).
  intros H. rewrite Hs, Ht, !forallb_app in H. fold (strip s) in H.
  apply andb_prop in H as [_ H]. now apply andb_prop in H as [H _].
Qed.

Lemma universal_newlines_forallb (f : char -> bool) (s : str) :
  f LF = true -> forallb f s = true -> forallb f (universal_newlines s) = true.
Proof.
  intros Hf. remember (length s) as n eqn:Hn. revert s Hn.
  induction n as [n IH] using (well_founded_induction lt_wf).
  intros [|c s] Hn H; [reflexivity|]. cbn [universal_newlines].
  cbn [forallb] in H. apply andb_prop in H as [Hc Hs].
  destruct (N.eqb c CR).
  - destruct s as [|d s]; [cbn; now rewrite Hf|].
    destruct (N.eqb d LF); cbn [forallb]; rewrite Hf; cbn [andb].
    + cbn [forallb] in Hs. apply andb_prop in Hs as [_ Hs].
      apply (IH (length s)); auto. subst n. simpl. lia.
    + apply (IH (length (d :: s))); auto. subst n. simpl. lia.
  - cbn [forallb]. rewrite Hc. cbn [andb].
    apply (IH (length s)); auto. subst n. simpl. lia.
Qed.

Lemma concat_forallb {A : Type} (f : A -> bool) (ls : list (list A)) :
  forallb f (concat ls) = true -> Forall (fun l => forallb f l = true) ls.
Proof.
  induction ls as [|l ls IH]; [constructor|]. cbn [concat].
  rewrite forallb_app. intros H. apply andb_prop in H as [Hl Hls].
  constructor; auto.
Qed.

(** The characters of the lines are those of the text, and the newline. *)
Lemma readlines_forallb (f : char -> bool) (text : str) :
  f LF = true -> forallb f text = true ->
  Forall (fun l => forallb f l = true) (readlines text).
Proof.
  intros Hf H. apply concat_forallb. unfold readlines.
  rewrite split_lines_concat. now apply universal_newlines_forallb.
Qed.

(** The text of a record is made of characters of its line. *)
Lemma record_texts (f : char -> bool) (lines : list str) :
  Forall (fun l => forallb f l = true) lines ->
  Forall (fun p => forallb f (line_text p) = true) (problem_lines (scan lines)).
Proof.
  intros H. rewrite problems_all. apply Forall_forall. intros p Hin.
  apply in_flat_map in Hin as (k & _ & Hp). unfold record_at in Hp.
  destruct (negative _); [|contradiction]. destruct Hp as [<-|[]].
  cbn [line_text]. apply strip_forallb.
  destruct (nth_in_or_default (k - 1) lines []) as [Hn | ->]; [|reflexivity].
  rewrite Forall_forall in H. now apply H.
Qed.

Lemma printable_parts (has : charset) (s : str) :
  ascii_capable has = true -> forallb has s = true -> printable has s = true.
Proof.
  intros Ha H. unfold printable. rewrite forallb_app, H.
  now rewrite (ascii_has has [LF] Ha).
Qed.

(** All of the report but the texts of the records is ASCII. *)
Lemma report_printable (has : charset) (st : state) :
  ascii_capable has = true ->
  (forall p, In p (printed st) -> forallb has (firstn 80 (line_text p)) = true) ->
  forallb (printable has) (report st) = true.
Proof.
  intros Ha Hp.
  assert (Hlit : forall s, forallb ascii_chars s = true -> forallb has s = true)
    by (intros s; now apply ascii_has).
  assert (Hnum : forall z, forallb has (str_of_Z z) = true)
    by (intros z; apply Hlit, str_of_Z_ascii).
  unfold report. cbn [forallb]. apply andb_true_intro. split.
  - apply printable_parts; [exact Ha|]. now apply Hlit.
  - rewrite forallb_app. apply andb_true_intro. split.
    + induction (printed st) as [|p ps IH]; [reflexivity|].
      cbn [flat_map print_problem app forallb].
      rewrite IH by (intros q Hq; apply Hp; now right).
      rewrite !printable_parts; auto.
      * rewrite forallb_app, (Hp p) by now left. now rewrite Hlit.
      * rewrite !forallb_app, !Hnum. now rewrite !Hlit.
    + cbn [forallb]. rewrite andb_true_r. apply printable_parts; [exact Ha|].
      unfold final_counts. cbn [forallb]. rewrite !forallb_app, !Hnum.
      rewrite (ascii_capable_spec has LF Ha) by reflexivity. now rewrite !Hlit.
Qed.

Lemma in_firstn {A : Type} (n : nat) (l : list A) (x : A) :
  In x (firstn n l) -> In x l.
Proof.
  intros H. rewrite <- (firstn_skipn n l). apply in_or_app. now left.
Qed.

Lemma text_printable (has : charset) (text : str) :
  ascii_capable has = true -> forallb has text = true ->
  forallb (printable has) (report (scan (readlines text))) = true.
Proof.
  intros Ha Ht. apply report_printable; [exact Ha|]. intros p Hp.
  apply forallb_firstn. unfold printed in Hp. apply in_firstn in Hp.
  assert (Hlf : has LF = true) by (now apply ascii_capable_spec).
  pose proof (record_texts has (readlines text)
                (readlines_forallb has text Hlf Ht)) as H.
  rewrite Forall_forall in H. now apply H.
Qed.

(** C7, as the code has it: a run fails when [open] fails, with its
    [OSError] (the file is missing, may not be read, is a directory, is
    below a file, or the operating system refuses otherwise); when the
    bytes of the file are no text in the input encoding, with a
    [UnicodeDecodeError]; and when [print] meets a character the encoding of
    the standard output lacks, with a [UnicodeEncodeError] after what was
    printed before.  It fails in no other case, and the scan itself never
    fails: when the standard output has ASCII, [print] can only fail on a
    character among the first 80 of the text of one of the first ten
    records, so a run on a text whose characters the standard output has
    ends with the whole report, whatever the text holds. *)
Theorem failures_of_a_run (decode : codec) (has : charset) (n : node) :
  (forall e out, snd (run_io decode has n) = Raised e out <->
     (exists o, open_read n = inl o /\ e = OS o /\ out = [])
     \/ (exists data, n = File data /\ decode data = None
          /\ e = UnicodeDecodeError /\ out = [])
     \/ (exists data text, n = File data /\ decode data = Some text
          /\ e = UnicodeEncodeError
          /\ print_all has (report (scan (readlines text))) = (out, false)))
  /\ (forall data text, n = File data -> decode data = Some text ->
      ascii_capable has = true ->
      (forall p, In p (firstn 10 (problem_lines (scan (readlines text)))) ->
         forallb has (firstn 80 (line_text p)) = true) ->
      snd (run_io decode has n)
      = Finished (scan (readlines text)) (report (scan (readlines text))))
  /\ (forall data text, n = File data -> decode data = Some text ->
      ascii_capable has = true -> forallb has text = true ->
      snd (run_io decode has n)
      = Finished (scan (readlines text)) (report (scan (readlines text))))
  /\ (forall o, open_read n = inl o <->
        (n = Missing /\ o = FileNotFoundError)
        \/ (n = Unreadable /\ o = PermissionError)
        \/ (n = Directory /\ o = IsADirectoryError)
        \/ (n = BelowFile /\ o = NotADirectoryError)
        \/ (exists errno, n = Failing errno /\ o = OtherOSError errno)).
Proof.
  split; [|split; [|split]].
  - intros e out. rewrite run_io_outcome. split.
    + destruct (open_read n) as [o|data] eqn:Ho.
      * intros [= <- <-]. left. eauto.
      * assert (Hn : n = File data) by (destruct n; now inversion Ho).
        destruct (decode data) as [text|] eqn:Hd.
        -- destruct (print_all has (report (scan (readlines text))))
             as [out' [|]] eqn:Hp; [discriminate|].
           intros [= <- <-]. right. right. exists data, text. auto.
        -- intros [= <- <-]. right. left. exists data. auto.
    + intros [(o & Ho & -> & ->) | [(data & -> & Hd & -> & ->)
                                  | (data & text & -> & Hd & -> & Hp)]].
      * now rewrite Ho.
      * cbn [open_read]. now rewrite Hd.
      * cbn [open_read]. now rewrite Hd, Hp.
  - intros data text -> Hd Ha Hp. apply run_io_finished; [exact Hd|].
    now apply report_printable.
  - intros data text -> Hd Ha Ht. apply run_io_finished; [exact Hd|].
    now apply text_printable.
  - intros o. destruct n; cbn [open_read]; split.
    all: try (intros [= <-]; eauto 8).
    all: try discriminate.
    all: intros [[H1 H2]|[[H1 H2]|[[H1 H2]|[[H1 H2]|(k & H1 & H2)]]]];
      try discriminate H1; subst; try reflexivity.
    now injection H1 as <-.
Qed.

(** C7, as stated, does not hold: a file of the single byte 255 can be
    opened and read, and in a UTF-8 locale the run on it ends with a
    [UnicodeDecodeError]; a file with a closing brace and an accented
    letter is read in a UTF-8 locale, and on an ASCII standard output the
    run ends with a [UnicodeEncodeError] after the header and the first
    line of the record.  Neither is a file access error. *)
Lemma undecodable_file_fails :
  open_read (File [Byte.xff]) = inr [Byte.xff]
  /\ snd (run_io utf_8 unicode_chars (File [Byte.xff]))
     = Raised UnicodeDecodeError []
  /\ utf_8 accent_data = Some [RBRACE; 233%N]
  /\ snd (run_io utf_8 ascii_chars (File accent_data))
     = Raised UnicodeEncodeError
         [lit "Lines where balance goes negative:";
          lit "Line 1: braces=-1, parens=0"]
  /\ (forall o, UnicodeDecodeError <> OS o /\ UnicodeEncodeError <> OS o).
Proof.
  repeat split; discriminate.
Qed.

(** *** Two runs *)





